(** * gonetwork state channel: message layer and mediated-transfer machines

    A shallow embedding of [lib/state-channel/message.js] and
    [src/state-channel/state-machine.ts].

    - thrown JavaScript exceptions are explicit: a computation ends in a
      [Completion], [Return v] for a returned value and [Throw e] for a
      thrown error;
    - a [Buffer] is a list of bytes, a bn.js [BN] an unsigned natural [N];
    - properties keep their documented (JSDoc) types.  An option object that
      carries a value of another JavaScript type is outside the model: the
      constructor answers [Unmodelled] instead of storing it;
    - the primitives of ethereumjs-util (keccak, ECDSA) and the constant
      [channel.REVEAL_TIMEOUT] are the fields of the class [Primitives]. *)

From Stdlib Require Import ZArith NArith List String Ascii Bool Lia.
From Stdlib Require Import Strings.Byte.
From Stdlib Require HexString DecimalString.
Import ListNotations.
Open Scope string_scope.
Open Scope list_scope.

Set Implicit Arguments.
Set Warnings "-register-all".

(** ** The JavaScript runtime: completions, buffers, big numbers *)

Inductive Error : Type :=
| TypeError (message : string)
| JsError (message : string).

Inductive Completion (A : Type) : Type :=
| Return (a : A)
| Throw (e : Error)
| Unmodelled.

Arguments Return {A} a.
Arguments Throw {A} e.
Arguments Unmodelled {A}.

Definition bind {A B : Type} (c : Completion A) (k : A -> Completion B)
  : Completion B :=
  match c with
  | Return a => k a
  | Throw e => Throw e
  | Unmodelled => Unmodelled
  end.

Declare Scope js_scope.
Delimit Scope js_scope with js.
Notation "x <- c ;; k" := (bind c (fun x => k))
  (at level 61, c at next level, right associativity) : js_scope.
Open Scope js_scope.

Definition Buffer : Type := list byte.
Definition BN : Type := N.

Definition Buffer_alloc (size : nat) : Buffer := repeat x00 size.

(** [a.compare(b)]: byte-wise lexicographic order, -1, 0 or 1. *)
Fixpoint Buffer_compare (a b : Buffer) : Z :=
  match a, b with
  | [], [] => 0%Z
  | [], _ :: _ => (-1)%Z
  | _ :: _, [] => 1%Z
  | x :: a', y :: b' =>
      match N.compare (Byte.to_N x) (Byte.to_N y) with
      | Eq => Buffer_compare a' b'
      | Lt => (-1)%Z
      | Gt => 1%Z
      end
  end.

(** [buf.slice(-n)] and [buf.slice(0, n)]. *)
Definition slice_last (n : nat) (b : Buffer) : Buffer :=
  skipn (List.length b - n) b.
Definition slice_first (n : nat) (b : Buffer) : Buffer := firstn n b.

Definition byte_of_N (n : N) : byte :=
  match Byte.of_N (n mod 256) with
  | Some b => b
  | None => x00
  end.

(** [bn.toArrayLike(Buffer, 'le', len)], least significant byte first. *)
Fixpoint N_to_le (len : nat) (n : N) : Buffer :=
  match len with
  | O => []
  | S k => byte_of_N n :: N_to_le k (n / 256)
  end.

(** [bn.toArrayLike(Buffer, 'be', len)]. *)
Definition N_to_be (len : nat) (n : N) : Buffer := rev (N_to_le len n).

(** [bn.toString(16)], which is also [BN.prototype.toJSON]. *)
Definition BN_toString16 (n : BN) : string :=
  match n with
  | N0 => "0"
  | Npos p => HexString.Raw.of_pos p ""
  end.

Definition is_hex_digit (c : ascii) : bool :=
  match HexString.ascii_to_digit c with
  | Some _ => true
  | None => false
  end.

Fixpoint all_hex (s : string) : bool :=
  match s with
  | EmptyString => true
  | String c s' => is_hex_digit c && all_hex s'
  end.

(** [new BN(str, 16)] on a string of hexadecimal digits; other strings are
    not modelled. *)
Definition BN_parse16 (s : string) : Completion BN :=
  if all_hex s then Return (HexString.Raw.to_N s 0%N) else Unmodelled.

(** ** ethereumjs-util and ethereumjs-abi *)

Record Signature : Type := {
  r : Buffer;
  s : Buffer;
  v : Z
}.

Class Primitives : Type := {
  (** [util.sha3], keccak-256 *)
  sha3 : Buffer -> Buffer;
  (** [util.ecsign(hash, privateKey)] *)
  ecsign : Buffer -> Buffer -> Completion Signature;
  (** [util.ecrecover(hash, v, r, s)]: the public key, or a throw *)
  ecrecover : Buffer -> Z -> Buffer -> Buffer -> Completion Buffer;
  (** [channel.REVEAL_TIMEOUT] *)
  REVEAL_TIMEOUT : BN
}.

(** [util.setLengthLeft(msg, length)] *)
Definition setLengthLeft (msg : Buffer) (len : nat) : Buffer :=
  if Nat.ltb (List.length msg) len
  then Buffer_alloc (len - List.length msg) ++ msg
  else slice_last len msg.

(** [util.setLengthRight(msg, length)] *)
Definition setLengthRight (msg : Buffer) (len : nat) : Buffer :=
  if Nat.ltb (List.length msg) len
  then msg ++ Buffer_alloc (len - List.length msg)
  else slice_first len msg.

(** One entry of the type list of [abi.solidityPack] with its value. *)
Inductive AbiArg : Type :=
| uint256 (value : BN)
| address (value : Buffer)
| bytes32 (value : Buffer).

(** [String(n)] for a natural number: its decimal digits. *)
Definition Number_toString (n : N) : string :=
  DecimalString.NilZero.string_of_uint (N.to_uint n).

(** The error of [abi.solidityPack] for a uint256 of more than 256 bits:
    ['Supplied uint exceeds width: ' + size + ' vs ' + num.bitLength()]. *)
Definition uint_exceeds_width (n : BN) : Error :=
  JsError ("Supplied uint exceeds width: 256 vs "
           ++ Number_toString (N.size n)).

Definition pack_one (a : AbiArg) : Completion Buffer :=
  match a with
  | uint256 n =>
      if (N.size n <=? 256)%N then Return (N_to_be 32 n)
      else Throw (uint_exceeds_width n)
  | address b => Return (setLengthLeft b 20)
  | bytes32 b => Return (setLengthRight b 32)
  end.

(** [abi.solidityPack(types, values)] *)
Fixpoint solidityPack (args : list AbiArg) : Completion Buffer :=
  match args with
  | [] => Return []
  | a :: rest =>
      x <- pack_one a ;;
      xs <- solidityPack rest ;;
      Return (x ++ xs)
  end.

(** [abi.soliditySHA3(types, values)] *)
Definition soliditySHA3 `{Primitives} (args : list AbiArg)
  : Completion Buffer :=
  packed <- solidityPack args ;;
  Return (sha3 packed).

(** [util.pubToAddress(pubKey)] *)
Definition pubToAddress `{Primitives} (pubKey : Buffer) : Completion Buffer :=
  if Nat.eqb (List.length pubKey) 64
  then Return (slice_last 20 (sha3 pubKey))
  else Throw (JsError "AssertionError").

(** ** message.js: constants *)

Definition EMPTY_32BYTE_BUFFER : Buffer := Buffer_alloc 32.
Definition EMPTY_20BYTE_BUFFER : Buffer := Buffer_alloc 20.

(** ** JavaScript values, option objects and JSON documents *)

(** The values an options object can hold.  [VLock] is an instance of class
    [Lock], given by its three properties; [VObject] is a plain object, its
    properties in insertion order. *)
Inductive Value : Type :=
| VUndefined
| VNull
| VBool (b : bool)
| VNumber (n : Z)
| VString (str : string)
| VBN (n : BN)
| VBuffer (b : Buffer)
| VArray (items : list Value)
| VObject (props : list (string * Value))
| VLock (amount expiration : BN) (hashLock : Buffer).

(** A JSON text by what it denotes; [JNumber n] is a number written as the
    integer [n]. *)
Inductive json : Type :=
| JNull
| JBool (b : bool)
| JNumber (n : Z)
| JString (str : string)
| JArray (items : list json)
| JObject (members : list (string * json)).

Fixpoint lookup {A : Type} (k : string) (l : list (string * A)) : option A :=
  match l with
  | [] => None
  | (k', x) :: rest => if String.eqb k k' then Some x else lookup k rest
  end.

(** [!!value] *)
Definition truthy (value : Value) : bool :=
  match value with
  | VUndefined | VNull => false
  | VBool b => b
  | VNumber n => negb (Z.eqb n 0)
  | VString str => negb (String.eqb str "")
  | _ => true
  end.

(** [value instanceof Object] *)
Definition instanceof_Object (value : Value) : bool :=
  match value with
  | VBN _ | VBuffer _ | VArray _ | VObject _ | VLock _ _ _ => true
  | _ => false
  end.

(** [obj[k]] for the property names read in message.js: none of them is a
    property of a string, a number, a Buffer, an array or a BN. *)
Definition get (obj : Value) (k : string) : Completion Value :=
  match obj with
  | VUndefined => Throw (TypeError "Cannot read properties of undefined")
  | VNull => Throw (TypeError "Cannot read properties of null")
  | VObject props =>
      match lookup k props with
      | Some x => Return x
      | None => Return VUndefined
      end
  | VLock amount expiration hashLock =>
      if String.eqb k "amount" then Return (VBN amount)
      else if String.eqb k "expiration" then Return (VBN expiration)
      else if String.eqb k "hashLock" then Return (VBuffer hashLock)
      else Return VUndefined
  | _ => Return VUndefined
  end.

Fixpoint assign {A : Type} (k : string) (x : A) (l : list (string * A))
  : list (string * A) :=
  match l with
  | [] => [(k, x)]
  | (k', y) :: rest =>
      if String.eqb k k' then (k, x) :: rest else (k', y) :: assign k x rest
  end.

(** [obj[k] = x] under "use strict". *)
Definition set (obj : Value) (k : string) (x : Value) : Completion Value :=
  match obj with
  | VUndefined | VNull => Throw (TypeError "Cannot set properties")
  | VBool _ | VNumber _ | VString _ =>
      Throw (TypeError "Cannot create property")
  | VObject props => Return (VObject (assign k x props))
  | _ => Unmodelled
  end.

(** [obj.hasOwnProperty(k)]: the method is read from the object like any
    property, so that an own property of this name stands in its way; no
    value of the model is a function, and calling it throws. *)
Definition hasOwnProperty (obj : Value) (k : string) : Completion bool :=
  match obj with
  | VUndefined => Throw (TypeError "Cannot read properties of undefined")
  | VNull => Throw (TypeError "Cannot read properties of null")
  | VObject props =>
      match lookup "hasOwnProperty" props with
      | Some _ => Throw (TypeError "jsonObj.hasOwnProperty is not a function")
      | None =>
          match lookup k props with
          | Some _ => Return true
          | None => Return false
          end
      end
  | VLock _ _ _ =>
      Return (String.eqb k "amount" || String.eqb k "expiration"
              || String.eqb k "hashLock")
  | _ => Return false
  end.

(** [Buffer.prototype.toJSON] *)
Definition Buffer_toJSON (b : Buffer) : json :=
  JObject
    [("type", JString "Buffer");
     ("data", JArray (map (fun x => JNumber (Z.of_N (Byte.to_N x))) b))].

Definition Lock_toJSON (amount expiration : BN) (hashLock : Buffer) : json :=
  JObject
    [("amount", JString (BN_toString16 amount));
     ("expiration", JString (BN_toString16 expiration));
     ("hashLock", Buffer_toJSON hashLock)].

(** The members [JSON.stringify] writes for the properties of an object:
    a property whose value is undefined is left out. *)
Definition stringify_members {A : Type} (f : A -> option json)
  : list (string * A) -> list (string * json) :=
  fix members (ps : list (string * A)) : list (string * json) :=
    match ps with
    | [] => []
    | (k, x) :: rest =>
        match f x with
        | Some j => (k, j) :: members rest
        | None => members rest
        end
    end.

(** [JSON.stringify(value)] up to the text: the document it writes.  An
    undefined array item is written as null. *)
Fixpoint JSON_stringify (value : Value) : option json :=
  match value with
  | VUndefined => None
  | VNull => Some JNull
  | VBool b => Some (JBool b)
  | VNumber n => Some (JNumber n)
  | VString str => Some (JString str)
  | VBN n => Some (JString (BN_toString16 n))
  | VBuffer b => Some (Buffer_toJSON b)
  | VArray items =>
      Some (JArray
              (map (fun x => match JSON_stringify x with
                             | Some j => j
                             | None => JNull
                             end) items))
  | VObject props => Some (JObject (stringify_members JSON_stringify props))
  | VLock amount expiration hashLock =>
      Some (Lock_toJSON amount expiration hashLock)
  end.

(** [util.toBuffer(array)], that is [Buffer.from(array)], on an array of
    numbers: each item is taken modulo 256. *)
Fixpoint toBuffer_array (items : list Value) : Completion Buffer :=
  match items with
  | [] => Return []
  | VNumber n :: rest =>
      bs <- toBuffer_array rest ;;
      Return (byte_of_N (Z.to_N (n mod 256)) :: bs)
  | _ :: _ => Unmodelled
  end.

Definition JSON_REVIVER_FUNC (k : string) (v : Value) : Completion Value :=
  match v with
  | VObject props =>
      match lookup "type" props, lookup "data" props with
      | Some (VString ty), Some (VArray data) =>
          if String.eqb ty "Buffer"
          then b <- toBuffer_array data ;; Return (VBuffer b)
          else Return v
      | _, _ => Return v
      end
  | _ => Return v
  end.

(** Items and members in order, stopping at the first that throws. *)
Definition traverse {A B : Type} (f : A -> Completion B)
  : list A -> Completion (list B) :=
  fix walk (l : list A) : Completion (list B) :=
    match l with
    | [] => Return []
    | x :: rest =>
        y <- f x ;;
        ys <- walk rest ;;
        Return (y :: ys)
    end.

(** [JSON.parse] reads a number as a double: an integer is read as it is
    written up to 2^53 in absolute value; beyond, where the double rounds,
    the model has no answer. *)
Definition exact_double (n : Z) : bool := (Z.abs n <=? 2 ^ 53)%Z.

(** The properties of a parsed object: of a key written more than once the
    last value is kept, in the place of the first.  (JavaScript lists keys
    that are array indices first; nothing in message.js depends on the
    order of the properties of a parsed object.) *)
Definition own_members {A : Type} (members : list (string * A))
  : list (string * A) :=
  fold_left (fun props member => assign (fst member) (snd member) props)
    members [].

(** [JSON.parse(text)] from the document. *)
Fixpoint JSON_parse_text (j : json) : Completion Value :=
  match j with
  | JNull => Return VNull
  | JBool b => Return (VBool b)
  | JNumber n => if exact_double n then Return (VNumber n) else Unmodelled
  | JString str => Return (VString str)
  | JArray items =>
      vs <- traverse JSON_parse_text items ;;
      Return (VArray vs)
  | JObject members =>
      ps <- traverse
              (fun member : string * json =>
                 y <- JSON_parse_text (snd member) ;;
                 Return (fst member, y)) members ;;
      Return (VObject (own_members ps))
  end.

(** The walk of [JSON.parse] with a reviver over the parsed value: items
    and properties are revived before the value that holds them.  The
    reviver of message.js never looks at its key; array items are passed
    with the empty key. *)
Fixpoint internalize (reviver : string -> Value -> Completion Value)
  (k : string) (val : Value) : Completion Value :=
  match val with
  | VArray items =>
      vs <- traverse (internalize reviver "") items ;;
      reviver k (VArray vs)
  | VObject props =>
      ps <- traverse
              (fun prop : string * Value =>
                 y <- internalize reviver (fst prop) (snd prop) ;;
                 Return (fst prop, y)) props ;;
      reviver k (VObject ps)
  | _ => reviver k val
  end.

(** [JSON.parse(text, reviver)] *)
Definition JSON_parse (reviver : string -> Value -> Completion Value)
  (k : string) (j : json) : Completion Value :=
  val <- JSON_parse_text j ;;
  internalize reviver k val.

Definition DESERIALIZE (data : json) : Completion Value :=
  JSON_parse JSON_REVIVER_FUNC "" data.

(** [TO_BN(value)]: a BN is returned as it is, anything else goes through
    [new util.BN(value, 16)]. *)
Definition TO_BN (value : Value) : Completion BN :=
  match value with
  | VBN n => Return n
  | VString str => BN_parse16 str
  | VNumber n =>
      if (0 <=? n)%Z && (n <? 2 ^ 53)%Z then Return (Z.to_N n)
      else Unmodelled
  | VUndefined => Return 0%N
  | _ => Unmodelled
  end.

(** [value || dflt] for a property documented as a Buffer. *)
Definition Buffer_or (value : Value) (dflt : Buffer) : Completion Buffer :=
  if truthy value
  then match value with
       | VBuffer b => Return b
       | _ => Unmodelled
       end
  else Return dflt.

(** [options.signature || null] *)
Definition Signature_or_null (value : Value)
  : Completion (option Signature) :=
  if truthy value
  then match value with
       | VObject props =>
           match lookup "r" props, lookup "s" props, lookup "v" props with
           | Some (VBuffer r0), Some (VBuffer s0), Some (VNumber v0) =>
               Return (Some {| r := r0; s := s0; v := v0 |})
           | _, _, _ => Unmodelled
           end
       | _ => Unmodelled
       end
  else Return None.

Definition Signature_toValue (sig : option Signature) : Value :=
  match sig with
  | None => VNull
  | Some sg =>
      VObject [("r", VBuffer (r sg)); ("s", VBuffer (s sg));
               ("v", VNumber (v sg))]
  end.

(** ** message.js: the message classes *)

(** The interface of [SignedMessage]: the [signature] property and the
    [getHash] method every subclass overrides. *)
Class Signed (M : Type) : Type := {
  signature_of : M -> option Signature;
  getHash : M -> Completion Buffer
}.

Module SignedMessage.
Section Methods.
Context `{Primitives} {M : Type} `{Signed M}.

Definition _recoverAddress (this : M) : Completion Buffer :=
  buffer <- getHash this ;;
  match signature_of this with
  | None => Throw (TypeError "Cannot read properties of null")
  | Some sig =>
      pk <- ecrecover buffer (v sig) (r sig) (s sig) ;;
      pubToAddress pk
  end.

(** [get from()] *)
Definition from (this : M) : Completion Buffer :=
  match signature_of this with
  | None => Throw (JsError "no signature to recover address from")
  | Some _ => _recoverAddress this
  end.

Definition isSigned (this : M) : bool :=
  match signature_of this with
  | None => false
  | Some _ => true
  end.

(** [sign(privateKey)]: the signature the message holds afterwards. *)
Definition sign (this : M) (privateKey : Buffer) : Completion Signature :=
  buffer <- getHash this ;;
  ecsign buffer privateKey.
End Methods.

(** An instance of the base class itself. *)
Record t : Type := { signature : option Signature }.

Definition new (options : Value) : Completion t :=
  sg <- get options "signature" ;;
  sig <- Signature_or_null sg ;;
  Return {| signature := sig |}.

Definition own_properties (classType : string) (this : t)
  : list (string * Value) :=
  [("classType", VString classType);
   ("signature", Signature_toValue (signature this))].

#[global] Instance signed : Signed t := {
  signature_of := signature;
  getHash := fun _ => Throw (JsError "unimplemented getHash()")
}.
End SignedMessage.

Definition get_BN (options : Value) (k : string) : Completion BN :=
  x <- get options k ;; TO_BN x.

Definition get_Buffer (options : Value) (k : string) (dflt : Buffer)
  : Completion Buffer :=
  x <- get options k ;; Buffer_or x dflt.

(** [class Proof extends SignedMessage] *)
Module Proof.
Record t : Type := {
  super :> SignedMessage.t;
  nonce : BN;
  transferredAmount : BN;
  locksRoot : Buffer;
  channelAddress : Buffer;
  messageHash : Buffer
}.

Definition new (options : Value) : Completion t :=
  base <- SignedMessage.new options ;;
  n <- get_BN options "nonce" ;;
  ta <- get_BN options "transferredAmount" ;;
  lr <- get_Buffer options "locksRoot" EMPTY_32BYTE_BUFFER ;;
  ca <- get_Buffer options "channelAddress" EMPTY_20BYTE_BUFFER ;;
  mh <- get_Buffer options "messageHash" EMPTY_32BYTE_BUFFER ;;
  Return {| super := base; nonce := n; transferredAmount := ta;
            locksRoot := lr; channelAddress := ca; messageHash := mh |}.

Definition getHash `{Primitives} (this : t) : Completion Buffer :=
  soliditySHA3
    [uint256 (nonce this); uint256 (transferredAmount this);
     address (channelAddress this); bytes32 (locksRoot this);
     bytes32 (messageHash this)].

#[global] Instance signed `{Primitives} : Signed t := {
  signature_of := fun this => SignedMessage.signature this;
  getHash := getHash
}.

Definition own_properties (classType : string) (this : t)
  : list (string * Value) :=
  SignedMessage.own_properties classType this ++
  [("nonce", VBN (nonce this));
   ("transferredAmount", VBN (transferredAmount this));
   ("locksRoot", VBuffer (locksRoot this));
   ("channelAddress", VBuffer (channelAddress this));
   ("messageHash", VBuffer (messageHash this))].
End Proof.
Coercion Proof.super : Proof.t >-> SignedMessage.t.

(** [class ProofMessage extends SignedMessage].  [getHash] and [toProof]
    call the [getMessageHash] of the concrete class, passed here as
    [getMessageHash_]. *)
Module ProofMessage.
Record t : Type := {
  super :> SignedMessage.t;
  nonce : BN;
  transferredAmount : BN;
  locksRoot : Buffer;
  channelAddress : Buffer;
  messageHash : Buffer
}.

Definition new (options : Value) : Completion t :=
  base <- SignedMessage.new options ;;
  n <- get_BN options "nonce" ;;
  ta <- get_BN options "transferredAmount" ;;
  lr <- get_Buffer options "locksRoot" EMPTY_32BYTE_BUFFER ;;
  ca <- get_Buffer options "channelAddress" EMPTY_20BYTE_BUFFER ;;
  mh <- get_Buffer options "messageHash" EMPTY_32BYTE_BUFFER ;;
  Return {| super := base; nonce := n; transferredAmount := ta;
            locksRoot := lr; channelAddress := ca; messageHash := mh |}.

Definition getHash_ `{Primitives} (getMessageHash_ : Completion Buffer)
  (this : t) : Completion Buffer :=
  mh <- getMessageHash_ ;;
  soliditySHA3
    [uint256 (nonce this); uint256 (transferredAmount this);
     address (channelAddress this); bytes32 (locksRoot this);
     bytes32 mh].

(** [new Proof({...})] on properties that already have their types: the
    constructor of Proof keeps each of them as it is. *)
Definition toProof_ (getMessageHash_ : Completion Buffer) (this : t)
  : Completion Proof.t :=
  mh <- getMessageHash_ ;;
  Return {| Proof.super := super this;
            Proof.nonce := nonce this;
            Proof.transferredAmount := transferredAmount this;
            Proof.locksRoot := locksRoot this;
            Proof.channelAddress := channelAddress this;
            Proof.messageHash := mh |}.

Definition getMessageHash (this : t) : Completion Buffer :=
  Throw (JsError "unimplemented getMessageHash").

Definition getHash `{Primitives} (this : t) : Completion Buffer :=
  getHash_ (getMessageHash this) this.

#[global] Instance signed `{Primitives} : Signed t := {
  signature_of := fun this => SignedMessage.signature this;
  getHash := getHash
}.

Definition own_properties (classType : string) (this : t)
  : list (string * Value) :=
  SignedMessage.own_properties classType this ++
  [("nonce", VBN (nonce this));
   ("transferredAmount", VBN (transferredAmount this));
   ("locksRoot", VBuffer (locksRoot this));
   ("channelAddress", VBuffer (channelAddress this));
   ("messageHash", VBuffer (messageHash this))].
End ProofMessage.
Coercion ProofMessage.super : ProofMessage.t >-> SignedMessage.t.

(** [class Lock extends Hashable] *)
Module Lock.
Record t : Type := {
  amount : BN;
  expiration : BN;
  hashLock : Buffer
}.

Definition new (options : Value) : Completion t :=
  a <- get_BN options "amount" ;;
  e <- get_BN options "expiration" ;;
  h <- get_Buffer options "hashLock" EMPTY_32BYTE_BUFFER ;;
  Return {| amount := a; expiration := e; hashLock := h |}.

Definition getMessageHash `{Primitives} (this : t) : Completion Buffer :=
  soliditySHA3
    [uint256 (amount this); uint256 (expiration this);
     bytes32 (hashLock this)].

Definition encode (this : t) : Completion Buffer :=
  solidityPack
    [uint256 (amount this); uint256 (expiration this);
     bytes32 (hashLock this)].

Definition toValue (this : t) : Value :=
  VLock (amount this) (expiration this) (hashLock this).
End Lock.

(** [class OpenLock extends Lock] *)
Module OpenLock.
Record t : Type := {
  super :> Lock.t;
  secret : option Buffer
}.

Definition new (lock secret : Value) : Completion t :=
  base <- Lock.new lock ;;
  match secret with
  | VUndefined => Return {| super := base; secret := None |}
  | VBuffer b => Return {| super := base; secret := Some b |}
  | _ => Unmodelled
  end.

Definition encode (this : t) : Completion Buffer :=
  match secret this with
  | Some sec =>
      solidityPack
        [uint256 (Lock.amount this); uint256 (Lock.expiration this);
         bytes32 (Lock.hashLock this); bytes32 sec]
  | None => Unmodelled
  end.
End OpenLock.
Coercion OpenLock.super : OpenLock.t >-> Lock.t.

(** [class DirectTransfer extends ProofMessage] *)
Module DirectTransfer.
Record t : Type := {
  super :> ProofMessage.t;
  msgID : BN;
  to : Buffer
}.

Definition new (options : Value) : Completion t :=
  base <- ProofMessage.new options ;;
  i <- get_BN options "msgID" ;;
  dst <- get_Buffer options "to" EMPTY_20BYTE_BUFFER ;;
  Return {| super := base; msgID := i; to := dst |}.

Definition getMessageHash `{Primitives} (this : t) : Completion Buffer :=
  soliditySHA3
    [uint256 (msgID this); uint256 (ProofMessage.nonce this);
     uint256 (ProofMessage.transferredAmount this);
     address (ProofMessage.channelAddress this);
     bytes32 (ProofMessage.locksRoot this); address (to this)].

Definition getHash `{Primitives} (this : t) : Completion Buffer :=
  ProofMessage.getHash_ (getMessageHash this) this.

Definition toProof `{Primitives} (this : t) : Completion Proof.t :=
  ProofMessage.toProof_ (getMessageHash this) this.

#[global] Instance signed `{Primitives} : Signed t := {
  signature_of := fun this => SignedMessage.signature this;
  getHash := getHash
}.

Definition own_properties (classType : string) (this : t)
  : list (string * Value) :=
  ProofMessage.own_properties classType this ++
  [("msgID", VBN (msgID this)); ("to", VBuffer (to this))].
End DirectTransfer.
Coercion DirectTransfer.super : DirectTransfer.t >-> ProofMessage.t.

(** [class LockedTransfer extends DirectTransfer] *)
Module LockedTransfer.
Record t : Type := {
  super :> DirectTransfer.t;
  lock : option Lock.t
}.

(** The constructor writes to its argument when [options.lock] is falsy:
    [construct] returns the new object together with [options] as the
    constructor leaves it. *)
Definition construct (options : Value) : Completion (t * Value) :=
  base <- DirectTransfer.new options ;;
  l <- get options "lock" ;;
  if negb (truthy l) then
    dflt <- Lock.new (VObject []) ;;
    options' <- set options "lock" (Lock.toValue dflt) ;;
    Return ({| super := base; lock := None |}, options')
  else
    match l with
    | VLock a e h =>
        Return ({| super := base;
                   lock := Some {| Lock.amount := a; Lock.expiration := e;
                                   Lock.hashLock := h |} |}, options)
    | _ =>
        if instanceof_Object l then
          lk <- Lock.new l ;;
          Return ({| super := base; lock := Some lk |}, options)
        else Return ({| super := base; lock := None |}, options)
    end.

Definition new (options : Value) : Completion t :=
  res <- construct options ;; Return (fst res).

(** [this.lock.getMessageHash()] *)
Definition lock_getMessageHash `{Primitives} (this : t)
  : Completion Buffer :=
  match lock this with
  | None =>
      Throw (TypeError "Cannot read properties of undefined")
  | Some l => Lock.getMessageHash l
  end.

Definition getMessageHash `{Primitives} (this : t) : Completion Buffer :=
  lh <- lock_getMessageHash this ;;
  soliditySHA3
    [uint256 (DirectTransfer.msgID this); uint256 (ProofMessage.nonce this);
     uint256 (ProofMessage.transferredAmount this);
     address (ProofMessage.channelAddress this);
     bytes32 (ProofMessage.locksRoot this);
     address (DirectTransfer.to this); bytes32 lh].

Definition getHash `{Primitives} (this : t) : Completion Buffer :=
  ProofMessage.getHash_ (getMessageHash this) this.

Definition toProof `{Primitives} (this : t) : Completion Proof.t :=
  ProofMessage.toProof_ (getMessageHash this) this.

#[global] Instance signed `{Primitives} : Signed t := {
  signature_of := fun this => SignedMessage.signature this;
  getHash := getHash
}.

Definition own_properties (classType : string) (this : t)
  : list (string * Value) :=
  DirectTransfer.own_properties classType this ++
  match lock this with
  | Some l => [("lock", Lock.toValue l)]
  | None => []
  end.
End LockedTransfer.
Coercion LockedTransfer.super : LockedTransfer.t >-> DirectTransfer.t.

(** [class MediatedTransfer extends LockedTransfer] *)
Module MediatedTransfer.
Record t : Type := {
  super :> LockedTransfer.t;
  target : Buffer;
  initiator : Buffer
}.

Definition new (options : Value) : Completion t :=
  res <- LockedTransfer.construct options ;;
  tg <- get_Buffer (snd res) "target" EMPTY_20BYTE_BUFFER ;;
  ini <- get_Buffer (snd res) "initiator" EMPTY_20BYTE_BUFFER ;;
  Return {| super := fst res; target := tg; initiator := ini |}.

Definition getMessageHash `{Primitives} (this : t) : Completion Buffer :=
  lh <- LockedTransfer.lock_getMessageHash this ;;
  soliditySHA3
    [uint256 (DirectTransfer.msgID this); uint256 (ProofMessage.nonce this);
     uint256 (ProofMessage.transferredAmount this);
     address (ProofMessage.channelAddress this);
     bytes32 (ProofMessage.locksRoot this);
     address (DirectTransfer.to this);
     address (target this); address (initiator this); bytes32 lh].

Definition getHash `{Primitives} (this : t) : Completion Buffer :=
  ProofMessage.getHash_ (getMessageHash this) this.

Definition toProof `{Primitives} (this : t) : Completion Proof.t :=
  ProofMessage.toProof_ (getMessageHash this) this.

#[global] Instance signed `{Primitives} : Signed t := {
  signature_of := fun this => SignedMessage.signature this;
  getHash := getHash
}.

Definition own_properties (classType : string) (this : t)
  : list (string * Value) :=
  LockedTransfer.own_properties classType this ++
  [("target", VBuffer (target this));
   ("initiator", VBuffer (initiator this))].
End MediatedTransfer.
Coercion MediatedTransfer.super : MediatedTransfer.t >-> LockedTransfer.t.

(** [class RequestSecret extends SignedMessage] *)
Module RequestSecret.
Record t : Type := {
  super :> SignedMessage.t;
  msgID : BN;
  to : Buffer;
  hashLock : Buffer;
  amount : BN
}.

Definition new (options : Value) : Completion t :=
  base <- SignedMessage.new options ;;
  i <- get_BN options "msgID" ;;
  dst <- get_Buffer options "to" EMPTY_20BYTE_BUFFER ;;
  h <- get_Buffer options "hashLock" EMPTY_32BYTE_BUFFER ;;
  a <- get_BN options "amount" ;;
  Return {| super := base; msgID := i; to := dst; hashLock := h;
            amount := a |}.

(** "we cannot include the expiration as this value is modified by hops
    at times" *)
Definition getHash `{Primitives} (this : t) : Completion Buffer :=
  soliditySHA3
    [uint256 (msgID this); address (to this); bytes32 (hashLock this);
     uint256 (amount this)].

#[global] Instance signed `{Primitives} : Signed t := {
  signature_of := fun this => SignedMessage.signature this;
  getHash := getHash
}.

Definition own_properties (classType : string) (this : t)
  : list (string * Value) :=
  SignedMessage.own_properties classType this ++
  [("msgID", VBN (msgID this)); ("to", VBuffer (to this));
   ("hashLock", VBuffer (hashLock this)); ("amount", VBN (amount this))].
End RequestSecret.
Coercion RequestSecret.super : RequestSecret.t >-> SignedMessage.t.

(** [class RevealSecret extends SignedMessage] *)
Module RevealSecret.
Record t : Type := {
  super :> SignedMessage.t;
  secret : Buffer;
  to : Buffer
}.

Definition new (options : Value) : Completion t :=
  base <- SignedMessage.new options ;;
  sec <- get_Buffer options "secret" EMPTY_32BYTE_BUFFER ;;
  dst <- get_Buffer options "to" EMPTY_20BYTE_BUFFER ;;
  Return {| super := base; secret := sec; to := dst |}.

Definition getHash `{Primitives} (this : t) : Completion Buffer :=
  soliditySHA3 [bytes32 (secret this); address (to this)].

(** [get hashLock()] *)
Definition hashLock `{Primitives} (this : t) : Buffer := sha3 (secret this).

#[global] Instance signed `{Primitives} : Signed t := {
  signature_of := fun this => SignedMessage.signature this;
  getHash := getHash
}.

Definition own_properties (classType : string) (this : t)
  : list (string * Value) :=
  SignedMessage.own_properties classType this ++
  [("secret", VBuffer (secret this)); ("to", VBuffer (to this))].
End RevealSecret.
Coercion RevealSecret.super : RevealSecret.t >-> SignedMessage.t.

(** [class SecretToProof extends ProofMessage] *)
Module SecretToProof.
Record t : Type := {
  super :> ProofMessage.t;
  msgID : BN;
  to : Buffer;
  secret : Buffer
}.

Definition new (options : Value) : Completion t :=
  base <- ProofMessage.new options ;;
  i <- get_BN options "msgID" ;;
  dst <- get_Buffer options "to" EMPTY_20BYTE_BUFFER ;;
  sec <- get_Buffer options "secret" EMPTY_32BYTE_BUFFER ;;
  Return {| super := base; msgID := i; to := dst; secret := sec |}.

Definition getMessageHash `{Primitives} (this : t) : Completion Buffer :=
  soliditySHA3
    [uint256 (msgID this); uint256 (ProofMessage.nonce this);
     uint256 (ProofMessage.transferredAmount this);
     address (ProofMessage.channelAddress this);
     bytes32 (ProofMessage.locksRoot this);
     address (to this); bytes32 (secret this)].

Definition getHash `{Primitives} (this : t) : Completion Buffer :=
  ProofMessage.getHash_ (getMessageHash this) this.

Definition toProof `{Primitives} (this : t) : Completion Proof.t :=
  ProofMessage.toProof_ (getMessageHash this) this.

Definition hashLock `{Primitives} (this : t) : Buffer := sha3 (secret this).

#[global] Instance signed `{Primitives} : Signed t := {
  signature_of := fun this => SignedMessage.signature this;
  getHash := getHash
}.

Definition own_properties (classType : string) (this : t)
  : list (string * Value) :=
  ProofMessage.own_properties classType this ++
  [("msgID", VBN (msgID this)); ("to", VBuffer (to this));
   ("secret", VBuffer (secret this))].
End SecretToProof.
Coercion SecretToProof.super : SecretToProof.t >-> ProofMessage.t.

(** [class Ack]: no base class, hence no [classType] property. *)
Module Ack.
Record t : Type := {
  to : Buffer;
  messageHash : Buffer;
  msgID : BN
}.

Definition new (options : Value) : Completion t :=
  dst <- get_Buffer options "to" EMPTY_20BYTE_BUFFER ;;
  mh <- get_Buffer options "messageHash" EMPTY_32BYTE_BUFFER ;;
  i <- get options "msgID" ;;
  n <- (if truthy i
        then match i with
             | VBN n => Return n
             | _ => Unmodelled
             end
        else Return 0%N) ;;
  Return {| to := dst; messageHash := mh; msgID := n |}.

Definition own_properties (this : t) : list (string * Value) :=
  [("to", VBuffer (to this)); ("messageHash", VBuffer (messageHash this));
   ("msgID", VBN (msgID this))].
End Ack.

(** ** message.js: serialization *)

(** The objects [DESERIALIZE_AND_DECODE_MESSAGE] can build, and [Ack]. *)
Inductive Message : Type :=
| MSignedMessage (m : SignedMessage.t)
| MProof (m : Proof.t)
| MProofMessage (m : ProofMessage.t)
| MLock (m : Lock.t)
| MOpenLock (m : OpenLock.t)
| MDirectTransfer (m : DirectTransfer.t)
| MLockedTransfer (m : LockedTransfer.t)
| MMediatedTransfer (m : MediatedTransfer.t)
| MRequestSecret (m : RequestSecret.t)
| MRevealSecret (m : RevealSecret.t)
| MSecretToProof (m : SecretToProof.t)
| MAck (m : Ack.t).

(** The object as [JSON.stringify] sees it: its own enumerable properties in
    the order the constructors set them.  [classType] is
    [this.constructor.name]. *)
Definition toValue (msg : Message) : Value :=
  match msg with
  | MSignedMessage m =>
      VObject (SignedMessage.own_properties "SignedMessage" m)
  | MProof m => VObject (Proof.own_properties "Proof" m)
  | MProofMessage m => VObject (ProofMessage.own_properties "ProofMessage" m)
  | MLock m => Lock.toValue m
  | MOpenLock m =>
      VObject
        ([("amount", VBN (Lock.amount m));
          ("expiration", VBN (Lock.expiration m));
          ("hashLock", VBuffer (Lock.hashLock m))] ++
         match OpenLock.secret m with
         | Some sec => [("secret", VBuffer sec)]
         | None => [("secret", VUndefined)]
         end)
  | MDirectTransfer m =>
      VObject (DirectTransfer.own_properties "DirectTransfer" m)
  | MLockedTransfer m =>
      VObject (LockedTransfer.own_properties "LockedTransfer" m)
  | MMediatedTransfer m =>
      VObject (MediatedTransfer.own_properties "MediatedTransfer" m)
  | MRequestSecret m =>
      VObject (RequestSecret.own_properties "RequestSecret" m)
  | MRevealSecret m => VObject (RevealSecret.own_properties "RevealSecret" m)
  | MSecretToProof m =>
      VObject (SecretToProof.own_properties "SecretToProof" m)
  | MAck m => VObject (Ack.own_properties m)
  end.

Definition SERIALIZE (msg : Message) : option json :=
  JSON_stringify (toValue msg).

Definition lift {A B : Type} (f : A -> B) (c : Completion A) : Completion B :=
  x <- c ;; Return (f x).

Definition DESERIALIZE_AND_DECODE_MESSAGE (data : json) : Completion Message :=
  jsonObj <- DESERIALIZE data ;;
  has <- hasOwnProperty jsonObj "classType" ;;
  if has : bool then
    classType <- get jsonObj "classType" ;;
    match classType with
    | VString c =>
        if String.eqb c "SignedMessage"
        then lift MSignedMessage (SignedMessage.new jsonObj)
        else if String.eqb c "Proof" then lift MProof (Proof.new jsonObj)
        else if String.eqb c "ProofMessage"
        then lift MProofMessage (ProofMessage.new jsonObj)
        else if String.eqb c "Lock" then lift MLock (Lock.new jsonObj)
        else if String.eqb c "OpenLock"
        then lift MOpenLock (OpenLock.new jsonObj VUndefined)
        else if String.eqb c "DirectTransfer"
        then lift MDirectTransfer (DirectTransfer.new jsonObj)
        else if String.eqb c "LockedTransfer"
        then lift MLockedTransfer (LockedTransfer.new jsonObj)
        else if String.eqb c "MediatedTransfer"
        then lift MMediatedTransfer (MediatedTransfer.new jsonObj)
        else if String.eqb c "RequestSecret"
        then lift MRequestSecret (RequestSecret.new jsonObj)
        else if String.eqb c "RevealSecret"
        then lift MRevealSecret (RevealSecret.new jsonObj)
        else if String.eqb c "SecretToProof"
        then lift MSecretToProof (SecretToProof.new jsonObj)
        else if String.eqb c "Ack" then lift MAck (Ack.new jsonObj)
        else Throw (JsError "Invalid Message: unknown classType")
    | _ => Throw (JsError "Invalid Message: unknown classType")
    end
  else Throw (JsError "Invalid Message: not a recoginized GOT message type").

(** ** machina: a behavioural state machine over a client object *)

(** The client of both machines: the [message.MediatedTransfer] handed in by
    the engine, with the two properties the handlers assign to it. *)
Record TransferState : Type := {
  transfer :> MediatedTransfer.t;
  secret : option Buffer;
  revealTo : option Buffer
}.

(** [Object.assign(state, { revealTo: x })] *)
Definition assign_revealTo (x : Buffer) (state : TransferState)
  : TransferState :=
  {| transfer := transfer state; secret := secret state;
     revealTo := Some x |}.

(** [Object.assign(state, { secret: x, revealTo: y })] *)
Definition assign_secret_revealTo (x y : Buffer) (state : TransferState)
  : TransferState :=
  {| transfer := transfer state; secret := Some x; revealTo := Some y |}.

(** The inputs the engine feeds with [applyMessage(stateChange, message)]:
    the three message arrivals and the block tick, each with the message its
    handler is written for, and [other] for an input of any other name (the
    engine's kick-off), with a block height or with nothing. *)
Inductive Input : Type :=
| receiveRequestSecret (requestSecret : RequestSecret.t)
| receiveRevealSecret (secretReveal : RevealSecret.t)
| receiveSecretToProof (secretToProof : SecretToProof.t)
| handleBlock (currentBlock : BN)
| other (message : option BN).

Module machina.
Section Fsm.
Variable State : Type.
Variable State_eqb : State -> State -> bool.

(** What a call of [handle] does to the outside: the events a handler
    emits itself, with the client as it is at that moment, and the
    state changes. *)
Inductive Effect : Type :=
| Emitted (eventName : string) (payload : TransferState)
| Transitioned (fromState toState : State).

(** The client object with machina's bookkeeping of its state, and the
    effects so far. *)
Record Machine : Type := {
  client : TransferState;
  state : State;
  effects : list Effect
}.

Definition Fsm (A : Type) : Type := Machine -> Machine * Completion A.

Definition ret {A : Type} (a : A) : Fsm A := fun m => (m, Return a).

Definition seq {A B : Type} (c : Fsm A) (k : A -> Fsm B) : Fsm B :=
  fun m =>
    match c m with
    | (m', Return a) => k a m'
    | (m', Throw e) => (m', Throw e)
    | (m', Unmodelled) => (m', Unmodelled)
    end.

(** A computation on values only, run inside a handler. *)
Definition eval {A : Type} (c : Completion A) : Fsm A := fun m => (m, c).

Definition this_client : Fsm TransferState :=
  fun m => (m, Return (client m)).

Definition update (f : TransferState -> TransferState) : Fsm unit :=
  fun m =>
    ({| client := f (client m); state := state m;
        effects := effects m |}, Return tt).

(** [this.emit(eventName, client)] *)
Definition emit (eventName : string) : Fsm unit :=
  fun m =>
    ({| client := client m; state := state m;
        effects := effects m ++ [Emitted eventName (client m)] |},
     Return tt).

(** [this.transition(client, newState)]: nothing happens when the client
    is already in [newState]; the [_onExit] and [_onEnter] hooks of both
    machines return null. *)
Definition transition (newState : State) : Fsm unit :=
  fun m =>
    if State_eqb newState (state m) then (m, Return tt)
    else
      ({| client := client m; state := newState;
          effects := effects m ++ [Transitioned (state m) newState] |},
       Return tt).

(** The current state has no handler for the input. *)
Definition nohandler : Fsm unit := ret tt.

Definition emitted (l : list Effect) : nat :=
  List.length
    (filter (fun e => match e with Emitted _ _ => true | _ => false end)
       l).

Definition moves (l : list Effect) : nat :=
  List.length
    (filter (fun e => match e with Transitioned _ _ => true | _ => false
                      end) l).

(** A client entering the machine.  machina puts a client it has not seen
    into [initialState] before it dispatches the first input to it. *)
Definition start (initialState : State) (c : TransferState) : Machine :=
  {| client := c; state := initialState; effects := [] |}.
End Fsm.

Arguments Emitted {State} eventName payload.
Arguments Transitioned {State} fromState toState.
Arguments ret {State A} a _.
Arguments seq {State A B} c k _.
Arguments eval {State A} c _.
Arguments this_client {State} _.
Arguments update {State} f _.
Arguments emit {State} eventName _.
Arguments transition {State} State_eqb newState _.
Arguments nohandler {State} _.
Arguments emitted {State} l.
Arguments moves {State} l.
Arguments start {State} initialState c.
End machina.

Declare Scope fsm_scope.
Delimit Scope fsm_scope with fsm.
Notation "x <- c ;; k" := (machina.seq c (fun x => k))
  (at level 61, c at next level, right associativity) : fsm_scope.
Notation "c ;; k" := (machina.seq c (fun _ => k))
  (at level 61, right associativity) : fsm_scope.

(** [a && b]: [b] is evaluated only when [a] is true. *)
Definition and_then (a b : Completion bool) : Completion bool :=
  x <- a ;; if x : bool then b else Return false.

(** [a.compare(b) === 0] *)
Definition same (a b : Buffer) : bool := Z.eqb (Buffer_compare a b) 0.

(** [state.lock], read for one of its properties. *)
Definition lock_of (state : TransferState) : Completion Lock.t :=
  match LockedTransfer.lock state with
  | Some l => Return l
  | None => Throw (TypeError "Cannot read properties of undefined")
  end.

(** [state.lock.expiration.lte(currentBlock.add(channel.REVEAL_TIMEOUT))] *)
Definition expired `{Primitives} (state : TransferState) (currentBlock : BN)
  : Completion bool :=
  l <- lock_of state ;;
  Return (Lock.expiration l <=? currentBlock + REVEAL_TIMEOUT)%N.

(** ** state-machine.ts *)

Module Initiator.
Inductive State : Type :=
| init
| awaitRequestSecret
| awaitRevealSecret
| completedTransfer
| failedTransfer
| expiredTransfer.

Definition State_eqb (a b : State) : bool :=
  match a, b with
  | init, init | awaitRequestSecret, awaitRequestSecret
  | awaitRevealSecret, awaitRevealSecret
  | completedTransfer, completedTransfer
  | failedTransfer, failedTransfer
  | expiredTransfer, expiredTransfer => true
  | _, _ => false
  end.

Definition initialState : State := init.

Definition Fsm : Type -> Type := machina.Fsm State.
Definition transition := machina.transition State_eqb.

Section Handlers.
Context `{Primitives}.
Local Open Scope fsm_scope.

(** [init], ['*'] *)
Definition init_any : Fsm unit :=
  machina.emit "GOT.sendMediatedTransfer" ;;
  transition awaitRequestSecret.

(** [awaitRequestSecret.receiveRequestSecret] *)
Definition awaitRequestSecret_receiveRequestSecret
  (requestSecret : RequestSecret.t) : Fsm unit :=
  state <- machina.this_client ;;
  ok <- machina.eval
          (and_then
             (sender <- SignedMessage.from requestSecret ;;
              Return (same (MediatedTransfer.target state) sender))%js
          (and_then
             (l <- lock_of state ;;
              Return (same (Lock.hashLock l)
                        (RequestSecret.hashLock requestSecret)))%js
             (Return (N.eqb (DirectTransfer.msgID state)
                        (RequestSecret.msgID requestSecret))))) ;;
  if ok : bool then
    machina.update (assign_revealTo (MediatedTransfer.target state)) ;;
    machina.emit "GOT.sendRevealSecret" ;;
    transition awaitRevealSecret
  else machina.ret tt.

(** [awaitRevealSecret.receiveRevealSecret] *)
Definition awaitRevealSecret_receiveRevealSecret
  (secretReveal : RevealSecret.t) : Fsm unit :=
  state <- machina.this_client ;;
  ok <- machina.eval
          (and_then
             (sender <- SignedMessage.from secretReveal ;;
              Return (same sender (DirectTransfer.to state)))%js
             (l <- lock_of state ;;
              Return (same (Lock.hashLock l)
                        (sha3 (RevealSecret.secret secretReveal))))%js) ;;
  if ok : bool then
    machina.emit "GOT.sendSecretToProof" ;;
    transition completedTransfer
  else machina.ret tt.

(** [handle(client, inputType, message)]: the handler of the current
    state named by the input, else its ['*'] handler, else none. *)
Definition handle (input : Input) : Fsm unit :=
  fun m =>
    match machina.state m with
    | init => init_any m
    | awaitRequestSecret =>
        match input with
        | receiveRequestSecret requestSecret =>
            awaitRequestSecret_receiveRequestSecret requestSecret m
        | _ => machina.nohandler m
        end
    | awaitRevealSecret =>
        match input with
        | receiveRevealSecret secretReveal =>
            awaitRevealSecret_receiveRevealSecret secretReveal m
        | _ => machina.nohandler m
        end
    | completedTransfer | failedTransfer | expiredTransfer =>
        machina.nohandler m
    end.
End Handlers.
End Initiator.

Module Target.
Inductive State : Type :=
| init
| awaitRevealSecret
| awaitSecretToProof
| completedTransfer
| expiredTransfer.

Definition State_eqb (a b : State) : bool :=
  match a, b with
  | init, init | awaitRevealSecret, awaitRevealSecret
  | awaitSecretToProof, awaitSecretToProof
  | completedTransfer, completedTransfer
  | expiredTransfer, expiredTransfer => true
  | _, _ => false
  end.

Definition initialState : State := init.

Definition Fsm : Type -> Type := machina.Fsm State.
Definition transition := machina.transition State_eqb.

Section Handlers.
Context `{Primitives}.
Local Open Scope fsm_scope.

(** The third argument of the ['*'] handler of [init], used as a BN:
    [currentBlock.add] exists on a block height only. *)
Definition currentBlock_of (input : Input) : Completion BN :=
  match input with
  | handleBlock currentBlock => Return currentBlock
  | other (Some currentBlock) => Return currentBlock
  | other None => Throw (TypeError "Cannot read properties of undefined")
  | _ => Throw (TypeError "currentBlock.add is not a function")
  end.

(** [init], ['*'] *)
Definition init_any (input : Input) : Fsm unit :=
  state <- machina.this_client ;;
  late <- machina.eval
            (l <- lock_of state ;;
             currentBlock <- currentBlock_of input ;;
             expired state currentBlock)%js ;;
  if late : bool then transition expiredTransfer
  else
    machina.emit "GOT.sendRequestSecret" ;;
    transition awaitRevealSecret.

(** [awaitRevealSecret.receiveRevealSecret] *)
Definition awaitRevealSecret_receiveRevealSecret
  (revealSecret : RevealSecret.t) : Fsm unit :=
  state <- machina.this_client ;;
  ok <- machina.eval
          (and_then
             (l <- lock_of state ;;
              Return (same (Lock.hashLock l)
                        (sha3 (RevealSecret.secret revealSecret))))%js
             (sender <- SignedMessage.from revealSecret ;;
              Return (same (MediatedTransfer.initiator state) sender))%js) ;;
  if ok : bool then
    back <- machina.eval (SignedMessage.from (transfer state)) ;;
    machina.update
      (assign_secret_revealTo (RevealSecret.secret revealSecret) back) ;;
    machina.emit "GOT.sendRevealSecret" ;;
    transition awaitSecretToProof
  else machina.ret tt.

(** [awaitRevealSecret.handleBlock] *)
Definition awaitRevealSecret_handleBlock (currentBlock : BN) : Fsm unit :=
  state <- machina.this_client ;;
  late <- machina.eval (expired state currentBlock) ;;
  if late : bool then transition expiredTransfer
  else machina.ret tt.

(** [awaitSecretToProof.receiveSecretToProof] *)
Definition awaitSecretToProof_receiveSecretToProof
  (secretToProof : SecretToProof.t) : Fsm unit :=
  state <- machina.this_client ;;
  ok <- machina.eval
          (sender <- SignedMessage.from secretToProof ;;
           back <- SignedMessage.from (transfer state) ;;
           Return (same sender back))%js ;;
  if ok : bool then
    machina.emit "GOT.receiveSecretToProof" ;;
    transition completedTransfer
  else machina.ret tt.

(** [awaitSecretToProof.handleBlock] *)
Definition awaitSecretToProof_handleBlock (currentBlock : BN)
  : Fsm unit :=
  state <- machina.this_client ;;
  late <- machina.eval (expired state currentBlock) ;;
  if late : bool then
    machina.emit "GOT.closeChannel" ;;
    transition completedTransfer
  else machina.ret tt.

Definition handle (input : Input) : Fsm unit :=
  fun m =>
    match machina.state m with
    | init => init_any input m
    | awaitRevealSecret =>
        match input with
        | receiveRevealSecret revealSecret =>
            awaitRevealSecret_receiveRevealSecret revealSecret m
        | handleBlock currentBlock =>
            awaitRevealSecret_handleBlock currentBlock m
        | _ => machina.nohandler m
        end
    | awaitSecretToProof =>
        match input with
        | receiveSecretToProof secretToProof =>
            awaitSecretToProof_receiveSecretToProof secretToProof m
        | handleBlock currentBlock =>
            awaitSecretToProof_handleBlock currentBlock m
        | _ => machina.nohandler m
        end
    | completedTransfer | expiredTransfer => machina.nohandler m
    end.
End Handlers.
End Target.

(** ** Vocabulary of the properties *)

(** The length of the pre-image of a list of types: 20 bytes for an address,
    32 for the others. *)
Fixpoint width (args : list AbiArg) : nat :=
  match args with
  | [] => 0
  | address _ :: rest => 20 + width rest
  | _ :: rest => 32 + width rest
  end.

(** The six fields every transfer message hashes first, in the order of
    [DirectTransfer.getMessageHash]. *)
Definition transfer_fields (d : DirectTransfer.t) : list AbiArg :=
  [uint256 (DirectTransfer.msgID d); uint256 (ProofMessage.nonce d);
   uint256 (ProofMessage.transferredAmount d);
   address (ProofMessage.channelAddress d);
   bytes32 (ProofMessage.locksRoot d); address (DirectTransfer.to d)].

(** The hash pre-images in the words of the specification.  The lock's own
    hash is the hash of its amount and expiration as 256-bit integers and
    its hashLock as 32 bytes. *)
Definition Lock_preimage (l : Lock.t) : Completion Buffer :=
  solidityPack
    [uint256 (Lock.amount l); uint256 (Lock.expiration l);
     bytes32 (Lock.hashLock l)].

(** LockedTransfer: the transfer fields + [lock.computeHash()]. *)
Definition LockedTransfer_preimage `{Primitives} (m : LockedTransfer.t)
  : Completion Buffer :=
  match LockedTransfer.lock m with
  | None => Throw (TypeError "Cannot read properties of undefined")
  | Some l =>
      lockBytes <- Lock_preimage l ;;
      fields <- solidityPack (transfer_fields m) ;;
      Return (fields ++ setLengthRight (sha3 lockBytes) 32)
  end.

(** MediatedTransfer: LockedTransfer fields + target:addr + initiator:addr +
    [lock.computeHash()]. *)
Definition MediatedTransfer_preimage `{Primitives} (m : MediatedTransfer.t)
  : Completion Buffer :=
  match LockedTransfer.lock m with
  | None => Throw (TypeError "Cannot read properties of undefined")
  | Some l =>
      lockBytes <- Lock_preimage l ;;
      fields <- solidityPack (transfer_fields m) ;;
      Return (fields ++ setLengthLeft (MediatedTransfer.target m) 20
                     ++ setLengthLeft (MediatedTransfer.initiator m) 20
                     ++ setLengthRight (sha3 lockBytes) 32)
  end.

(** The match conditions in the words of the specification. *)

(** [rs.sender == state.target ∧ rs.hashLock == state.lock.hashLock ∧
    rs.msgID == state.msgID] *)
Definition RequestSecret_matches `{Primitives} (state : TransferState)
  (rs : RequestSecret.t) : Prop :=
  SignedMessage.from rs = Return (MediatedTransfer.target state)
  /\ option_map Lock.hashLock (LockedTransfer.lock state) =
     Some (RequestSecret.hashLock rs)
  /\ DirectTransfer.msgID state = RequestSecret.msgID rs.

(** [rv.sender == state.to ∧ hash(rv.secret) == state.lock.hashLock] *)
Definition RevealSecret_matches `{Primitives} (state : TransferState)
  (rv : RevealSecret.t) : Prop :=
  SignedMessage.from rv = Return (DirectTransfer.to state)
  /\ option_map Lock.hashLock (LockedTransfer.lock state) =
     Some (sha3 (RevealSecret.secret rv)).

(** [p.sender == state.from] *)
Definition SecretToProof_matches `{Primitives} (state : TransferState)
  (p : SecretToProof.t) : Prop :=
  exists sender : Buffer,
    SignedMessage.from p = Return sender
    /\ SignedMessage.from (transfer state) = Return sender.

(** The effects of one input on a client [c] in state [st]. *)
Definition Initiator_effects `{Primitives} (c : TransferState)
  (st : Initiator.State) (input : Input)
  : list (machina.Effect Initiator.State) :=
  machina.effects
    (fst (Initiator.handle input
            {| machina.client := c; machina.state := st;
               machina.effects := [] |})).

Definition Target_effects `{Primitives} (c : TransferState)
  (st : Target.State) (input : Input)
  : list (machina.Effect Target.State) :=
  machina.effects
    (fst (Target.handle input
            {| machina.client := c; machina.state := st;
               machina.effects := [] |})).

(** [w] is what [JSON.parse] with the reviver gives back for the text
    [JSON.stringify] writes for [v]. *)
Definition comes_back (v w : Value) : Prop :=
  exists j, JSON_stringify v = Some j
            /\ forall k, JSON_parse JSON_REVIVER_FUNC k j = Return w.

Definition members_come_back (props wprops : list (string * Value)) : Prop :=
  Forall2 (fun p q => fst p = fst q /\ comes_back (snd p) (snd q))
    props wprops.

(** Decoding the encoding of [msg] gives [msg] again. *)
Definition round_trips (msg : Message) : Prop :=
  exists j, SERIALIZE msg = Some j
            /\ DESERIALIZE_AND_DECODE_MESSAGE j = Return msg.

(** The classes that inherit the [classType] property. *)
Definition extends_SignedMessage (msg : Message) : bool :=
  match msg with
  | MLock _ | MOpenLock _ | MAck _ => false
  | _ => true
  end.

(** The [signature] property of a message, null for the classes without. *)
Definition signature_property (msg : Message) : option Signature :=
  match msg with
  | MSignedMessage m => SignedMessage.signature m
  | MProof m => SignedMessage.signature m
  | MProofMessage m => SignedMessage.signature m
  | MDirectTransfer m => SignedMessage.signature m
  | MLockedTransfer m => SignedMessage.signature m
  | MMediatedTransfer m => SignedMessage.signature m
  | MRequestSecret m => SignedMessage.signature m
  | MRevealSecret m => SignedMessage.signature m
  | MSecretToProof m => SignedMessage.signature m
  | MLock _ | MOpenLock _ | MAck _ => None
  end.

(** A signature whose recovery value [v] a JSON text holds without loss. *)
Definition exact_v (sig : option Signature) : Prop :=
  match sig with
  | Some sg => exact_double (v sg) = true
  | None => True
  end.

(** No key twice. *)
Fixpoint distinct_keys (keys : list string) : bool :=
  match keys with
  | [] => true
  | k :: rest => negb (existsb (String.eqb k) rest) && distinct_keys rest
  end.

(** ** A concrete instance of the primitives

    Small stand-ins with the shapes of the real ones (a 32-byte digest, a
    64-byte public key), to run the model on examples. *)

Definition example_sha3 (b : Buffer) : Buffer :=
  Buffer_alloc 12 ++ setLengthRight b 20.

Definition example_primitives : Primitives := {|
  sha3 := example_sha3;
  ecsign := fun hash privateKey =>
              Return {| r := hash; s := privateKey; v := 27 |};
  ecrecover := fun hash v0 r0 s0 => Return (setLengthRight s0 64);
  REVEAL_TIMEOUT := 15%N
|}.

(** The transfer of the end-to-end scenario: msgID 1, nonce 1, 100
    transferred, channel 0xAA..AA, to 0xBB..BB, target 0xCC..CC, initiator
    0xDD..DD, a lock of 50 until block 1000 on the hash of a secret. *)
Definition example_secret : Buffer := repeat x53 32.

(** With [example_primitives], the signature that recovers to [addr]. *)
Definition example_signature (addr : Buffer) : option Signature :=
  Some {| r := []; s := addr; v := 27 |}.

Definition example_lock : Lock.t :=
  {| Lock.amount := 50%N; Lock.expiration := 1000%N;
     Lock.hashLock := example_sha3 example_secret |}.

Definition example_transfer : MediatedTransfer.t :=
  {| MediatedTransfer.super :=
       {| LockedTransfer.super :=
            {| DirectTransfer.super :=
                 {| ProofMessage.super :=
                      {| SignedMessage.signature :=
                           example_signature (repeat xee 20) |};
                    ProofMessage.nonce := 1%N;
                    ProofMessage.transferredAmount := 100%N;
                    ProofMessage.locksRoot := Buffer_alloc 32;
                    ProofMessage.channelAddress := repeat xaa 20;
                    ProofMessage.messageHash := Buffer_alloc 32 |};
               DirectTransfer.msgID := 1%N;
               DirectTransfer.to := repeat xbb 20 |};
          LockedTransfer.lock := Some example_lock |};
     MediatedTransfer.target := repeat xcc 20;
     MediatedTransfer.initiator := repeat xdd 20 |}.

Definition example_state : TransferState :=
  {| transfer := example_transfer; secret := None; revealTo := None |}.

(** A RequestSecret nobody has signed. *)
Definition example_unsigned : RequestSecret.t :=
  {| RequestSecret.super := {| SignedMessage.signature := None |};
     RequestSecret.msgID := 1%N;
     RequestSecret.to := repeat xcc 20;
     RequestSecret.hashLock := example_sha3 example_secret;
     RequestSecret.amount := 50%N |}.

Definition example_requestSecret : RequestSecret.t :=
  {| RequestSecret.super :=
       {| SignedMessage.signature := example_signature (repeat xcc 20) |};
     RequestSecret.msgID := 1%N;
     RequestSecret.to := repeat xdd 20;
     RequestSecret.hashLock := example_sha3 example_secret;
     RequestSecret.amount := 50%N |}.

Definition example_revealSecret : RevealSecret.t :=
  {| RevealSecret.super :=
       {| SignedMessage.signature := example_signature (repeat xbb 20) |};
     RevealSecret.secret := example_secret;
     RevealSecret.to := repeat xdd 20 |}.

(** The three inputs of the scenario, fed one after the other. *)
Definition example_run : machina.Machine Initiator.State :=
  let m0 := machina.start Initiator.initialState example_state in
  let m1 := fst (Initiator.handle (H := example_primitives)
                   (other (Some 900%N)) m0) in
  let m2 := fst (Initiator.handle (H := example_primitives)
                   (receiveRequestSecret example_requestSecret) m1) in
  fst (Initiator.handle (H := example_primitives)
         (receiveRevealSecret example_revealSecret) m2).

(** ** state-machine.ts: MessageState *)

(** [class MessageState]: a client with the machine that drives it.  The
    [state] of the class is the client object, in which machina keeps the
    state label. *)
Module MessageState.
Record t (State : Type) : Type := {
  state : machina.Machine State;
  stateMachine : Input -> machina.Fsm State unit
}.

(** [applyMessage(stateChange, message)]: one call of the machine's
    [handle] on the client; what [handle] throws goes to the caller. *)
Definition applyMessage {State : Type} (this : t State) (input : Input)
  : t State * Completion unit :=
  let out := stateMachine this input (state this) in
  ({| state := fst out; stateMachine := stateMachine this |}, snd out).

(** The inputs of a list applied one after the other, whether or not one of
    them throws. *)
Definition applyMessages {State : Type} (this : t State)
  (inputs : list Input) : t State :=
  fold_left (fun ms input => fst (applyMessage ms input)) inputs this.
End MessageState.

(** [new MessageState(state, InitiatorFactory())] on a client machina has
    not seen. *)
Definition Initiator_MessageState `{Primitives} (c : TransferState)
  : MessageState.t Initiator.State :=
  {| MessageState.state := machina.start Initiator.initialState c;
     MessageState.stateMachine := Initiator.handle |}.

Definition Target_MessageState `{Primitives} (c : TransferState)
  : MessageState.t Target.State :=
  {| MessageState.state := machina.start Target.initialState c;
     MessageState.stateMachine := Target.handle |}.

(** The names of the events a machine emitted, oldest first. *)
Definition emitted_names {State : Type} (l : list (machina.Effect State))
  : list string :=
  flat_map (fun e => match e with
                     | machina.Emitted name _ => [name]
                     | machina.Transitioned _ _ => []
                     end) l.

(** The steps of the Initiator: what one input can do to a client and its
    state when it does anything. *)
Inductive Initiator_step
  : machina.Machine Initiator.State -> machina.Machine Initiator.State
    -> Prop :=
| Initiator_sends (c : TransferState)
    (es : list (machina.Effect Initiator.State)) :
    Initiator_step
      {| machina.client := c; machina.state := Initiator.init;
         machina.effects := es |}
      {| machina.client := c; machina.state := Initiator.awaitRequestSecret;
         machina.effects :=
           (es ++ [machina.Emitted "GOT.sendMediatedTransfer" c])
           ++ [machina.Transitioned Initiator.init
                 Initiator.awaitRequestSecret] |}
| Initiator_reveals (c : TransferState)
    (es : list (machina.Effect Initiator.State)) :
    Initiator_step
      {| machina.client := c; machina.state := Initiator.awaitRequestSecret;
         machina.effects := es |}
      {| machina.client :=
           {| transfer := transfer c; secret := secret c;
              revealTo := Some (MediatedTransfer.target c) |};
         machina.state := Initiator.awaitRevealSecret;
         machina.effects :=
           (es ++ [machina.Emitted "GOT.sendRevealSecret"
                     {| transfer := transfer c; secret := secret c;
                        revealTo := Some (MediatedTransfer.target c) |}])
           ++ [machina.Transitioned Initiator.awaitRequestSecret
                 Initiator.awaitRevealSecret] |}
| Initiator_completes (c : TransferState)
    (es : list (machina.Effect Initiator.State)) :
    Initiator_step
      {| machina.client := c; machina.state := Initiator.awaitRevealSecret;
         machina.effects := es |}
      {| machina.client := c; machina.state := Initiator.completedTransfer;
         machina.effects :=
           (es ++ [machina.Emitted "GOT.sendSecretToProof" c])
           ++ [machina.Transitioned Initiator.awaitRevealSecret
                 Initiator.completedTransfer] |}.

(** The steps of the Target. *)
Inductive Target_step `{Primitives}
  : machina.Machine Target.State -> machina.Machine Target.State -> Prop :=
| Target_requests (c : TransferState)
    (es : list (machina.Effect Target.State)) :
    Target_step
      {| machina.client := c; machina.state := Target.init;
         machina.effects := es |}
      {| machina.client := c; machina.state := Target.awaitRevealSecret;
         machina.effects :=
           (es ++ [machina.Emitted "GOT.sendRequestSecret" c])
           ++ [machina.Transitioned Target.init
                 Target.awaitRevealSecret] |}
| Target_expires (c : TransferState) (st : Target.State)
    (es : list (machina.Effect Target.State)) :
    st = Target.init \/ st = Target.awaitRevealSecret ->
    Target_step
      {| machina.client := c; machina.state := st; machina.effects := es |}
      {| machina.client := c; machina.state := Target.expiredTransfer;
         machina.effects :=
           es ++ [machina.Transitioned st Target.expiredTransfer] |}
| Target_reveals (c : TransferState)
    (es : list (machina.Effect Target.State)) (l : Lock.t)
    (sec back : Buffer) :
    LockedTransfer.lock c = Some l ->
    Lock.hashLock l = sha3 sec ->
    SignedMessage.from (transfer c) = Return back ->
    Target_step
      {| machina.client := c; machina.state := Target.awaitRevealSecret;
         machina.effects := es |}
      {| machina.client :=
           {| transfer := transfer c; secret := Some sec;
              revealTo := Some back |};
         machina.state := Target.awaitSecretToProof;
         machina.effects :=
           (es ++ [machina.Emitted "GOT.sendRevealSecret"
                     {| transfer := transfer c; secret := Some sec;
                        revealTo := Some back |}])
           ++ [machina.Transitioned Target.awaitRevealSecret
                 Target.awaitSecretToProof] |}
| Target_completes (c : TransferState)
    (es : list (machina.Effect Target.State)) (name : string) :
    name = "GOT.receiveSecretToProof" \/ name = "GOT.closeChannel" ->
    Target_step
      {| machina.client := c; machina.state := Target.awaitSecretToProof;
         machina.effects := es |}
      {| machina.client := c; machina.state := Target.completedTransfer;
         machina.effects :=
           (es ++ [machina.Emitted name c])
           ++ [machina.Transitioned Target.awaitSecretToProof
                 Target.completedTransfer] |}.

(** The events a Target in a given state can have emitted since [init]. *)
Definition Target_history (st : Target.State) (names : list string) : Prop :=
  match st with
  | Target.init => names = []
  | Target.awaitRevealSecret => names = ["GOT.sendRequestSecret"]
  | Target.awaitSecretToProof =>
      names = ["GOT.sendRequestSecret"; "GOT.sendRevealSecret"]
  | Target.completedTransfer =>
      names = ["GOT.sendRequestSecret"; "GOT.sendRevealSecret";
               "GOT.receiveSecretToProof"]
      \/ names = ["GOT.sendRequestSecret"; "GOT.sendRevealSecret";
                  "GOT.closeChannel"]
  | Target.expiredTransfer =>
      names = [] \/ names = ["GOT.sendRequestSecret"]
  end.

(** The events an Initiator in a given state has emitted since [init]. *)
Definition Initiator_history (st : Initiator.State) : option (list string) :=
  match st with
  | Initiator.init => Some []
  | Initiator.awaitRequestSecret => Some ["GOT.sendMediatedTransfer"]
  | Initiator.awaitRevealSecret =>
      Some ["GOT.sendMediatedTransfer"; "GOT.sendRevealSecret"]
  | Initiator.completedTransfer =>
      Some ["GOT.sendMediatedTransfer"; "GOT.sendRevealSecret";
            "GOT.sendSecretToProof"]
  | Initiator.failedTransfer | Initiator.expiredTransfer => None
  end.

(** What the Target stores is consistent: a stored secret hashes to the
    hashLock of the lock, and is stored together with the address to reveal
    it to, the sender of the transfer. *)
Definition Target_secret_opens_lock `{Primitives} (c : TransferState)
  : Prop :=
  match secret c with
  | None => True
  | Some sec =>
      option_map Lock.hashLock (LockedTransfer.lock c) = Some (sha3 sec)
      /\ exists back, revealTo c = Some back
                      /\ SignedMessage.from (transfer c) = Return back
  end.

(** ** message.js: signing *)

(** The object with [this.signature = sig], class by class. *)
Definition RequestSecret_with_signature (this : RequestSecret.t)
  (sig : option Signature) : RequestSecret.t :=
  {| RequestSecret.super := {| SignedMessage.signature := sig |};
     RequestSecret.msgID := RequestSecret.msgID this;
     RequestSecret.to := RequestSecret.to this;
     RequestSecret.hashLock := RequestSecret.hashLock this;
     RequestSecret.amount := RequestSecret.amount this |}.

Definition RevealSecret_with_signature (this : RevealSecret.t)
  (sig : option Signature) : RevealSecret.t :=
  {| RevealSecret.super := {| SignedMessage.signature := sig |};
     RevealSecret.secret := RevealSecret.secret this;
     RevealSecret.to := RevealSecret.to this |}.

Definition ProofMessage_with_signature (this : ProofMessage.t)
  (sig : option Signature) : ProofMessage.t :=
  {| ProofMessage.super := {| SignedMessage.signature := sig |};
     ProofMessage.nonce := ProofMessage.nonce this;
     ProofMessage.transferredAmount := ProofMessage.transferredAmount this;
     ProofMessage.locksRoot := ProofMessage.locksRoot this;
     ProofMessage.channelAddress := ProofMessage.channelAddress this;
     ProofMessage.messageHash := ProofMessage.messageHash this |}.

Definition DirectTransfer_with_signature (this : DirectTransfer.t)
  (sig : option Signature) : DirectTransfer.t :=
  {| DirectTransfer.super := ProofMessage_with_signature this sig;
     DirectTransfer.msgID := DirectTransfer.msgID this;
     DirectTransfer.to := DirectTransfer.to this |}.

Definition LockedTransfer_with_signature (this : LockedTransfer.t)
  (sig : option Signature) : LockedTransfer.t :=
  {| LockedTransfer.super := DirectTransfer_with_signature this sig;
     LockedTransfer.lock := LockedTransfer.lock this |}.

Definition MediatedTransfer_with_signature (this : MediatedTransfer.t)
  (sig : option Signature) : MediatedTransfer.t :=
  {| MediatedTransfer.super := LockedTransfer_with_signature this sig;
     MediatedTransfer.target := MediatedTransfer.target this;
     MediatedTransfer.initiator := MediatedTransfer.initiator this |}.

Definition SecretToProof_with_signature (this : SecretToProof.t)
  (sig : option Signature) : SecretToProof.t :=
  {| SecretToProof.super := ProofMessage_with_signature this sig;
     SecretToProof.msgID := SecretToProof.msgID this;
     SecretToProof.to := SecretToProof.to this;
     SecretToProof.secret := SecretToProof.secret this |}.

(** [sign(privateKey)] as it leaves the object: the hash is computed, signed,
    and the signature stored over whatever signature was there. *)
Definition sign_and_store `{Primitives} {M : Type} `{Signed M}
  (with_signature : M -> option Signature -> M) (this : M)
  (privateKey : Buffer) : Completion M :=
  sig <- SignedMessage.sign this privateKey ;;
  Return (with_signature this (Some sig)).

(** The SecretToProof with the proof fields, msgID and to of a locked
    transfer and a given secret. *)
Definition SecretToProof_of (lt : LockedTransfer.t) (sec : Buffer)
  : SecretToProof.t :=
  {| SecretToProof.super := lt;
     SecretToProof.msgID := DirectTransfer.msgID lt;
     SecretToProof.to := DirectTransfer.to lt;
     SecretToProof.secret := sec |}.

(** The class names [DESERIALIZE_AND_DECODE_MESSAGE] knows. *)
Definition known_classTypes : list string :=
  ["SignedMessage"; "Proof"; "ProofMessage"; "Lock"; "OpenLock";
   "DirectTransfer"; "LockedTransfer"; "MediatedTransfer"; "RequestSecret";
   "RevealSecret"; "SecretToProof"; "Ack"].

(** [msg.constructor.name] *)
Definition constructor_name (msg : Message) : string :=
  match msg with
  | MSignedMessage _ => "SignedMessage"
  | MProof _ => "Proof"
  | MProofMessage _ => "ProofMessage"
  | MLock _ => "Lock"
  | MOpenLock _ => "OpenLock"
  | MDirectTransfer _ => "DirectTransfer"
  | MLockedTransfer _ => "LockedTransfer"
  | MMediatedTransfer _ => "MediatedTransfer"
  | MRequestSecret _ => "RequestSecret"
  | MRevealSecret _ => "RevealSecret"
  | MSecretToProof _ => "SecretToProof"
  | MAck _ => "Ack"
  end.

(** An integer that fits a uint256. *)
Definition fits_uint256 (n : BN) : Prop := (n < 2 ^ 256)%N.

(** The match condition of the Target for a RevealSecret:
    [hash(rv.secret) == state.lock.hashLock ∧ rv.sender == state.initiator] *)
Definition Target_RevealSecret_matches `{Primitives} (state : TransferState)
  (rv : RevealSecret.t) : Prop :=
  option_map Lock.hashLock (LockedTransfer.lock state) =
    Some (sha3 (RevealSecret.secret rv))
  /\ SignedMessage.from rv = Return (MediatedTransfer.initiator state).

(** ** Matched and mismatched events *)

(** What an event causes, counted. *)
Definition one_of_each {State : Type} (new : list (machina.Effect State))
  : Prop :=
  machina.emitted new = 1 /\ machina.moves new = 1.

Definition none_of_either {State : Type}
  (new : list (machina.Effect State)) : Prop :=
  machina.emitted new = 0 /\ machina.moves new = 0.

Definition one_move_no_emit {State : Type}
  (new : list (machina.Effect State)) : Prop :=
  machina.emitted new = 0 /\ machina.moves new = 1.

(** An event is successfully matched when the state it arrives in has a
    rule for it and the condition of the rule holds: any event in [init];
    a RequestSecret in [awaitRequestSecret] and a RevealSecret in
    [awaitRevealSecret] under their match conditions. *)
Definition Initiator_matched `{Primitives} (c : TransferState)
  (st : Initiator.State) (input : Input) : Prop :=
  match st, input with
  | Initiator.init, _ => True
  | Initiator.awaitRequestSecret, receiveRequestSecret rs =>
      RequestSecret_matches c rs
  | Initiator.awaitRevealSecret, receiveRevealSecret rv =>
      RevealSecret_matches c rv
  | _, _ => False
  end.

(** [lock.expiration <= currentBlock + RevealTimeout] at the block height
    the event carries, and its contrary. *)
Definition lock_expired `{Primitives} (c : TransferState) (input : Input)
  : Prop :=
  exists (l : Lock.t) (currentBlock : BN),
    LockedTransfer.lock c = Some l
    /\ Target.currentBlock_of input = Return currentBlock
    /\ (Lock.expiration l <= currentBlock + REVEAL_TIMEOUT)%N.

Definition lock_not_expired `{Primitives} (c : TransferState)
  (input : Input) : Prop :=
  exists (l : Lock.t) (currentBlock : BN),
    LockedTransfer.lock c = Some l
    /\ Target.currentBlock_of input = Return currentBlock
    /\ (currentBlock + REVEAL_TIMEOUT < Lock.expiration l)%N.

(** The rules of the Target that emit: in [init] an event with a block
    height at which the lock has not expired; in [awaitRevealSecret] a
    matching RevealSecret; in [awaitSecretToProof] a matching SecretToProof,
    or a block tick at which the lock has expired. *)
Definition Target_matched `{Primitives} (c : TransferState)
  (st : Target.State) (input : Input) : Prop :=
  match st, input with
  | Target.init, _ => lock_not_expired c input
  | Target.awaitRevealSecret, receiveRevealSecret rv =>
      Target_RevealSecret_matches c rv
  | Target.awaitSecretToProof, receiveSecretToProof p =>
      SecretToProof_matches c p
  | Target.awaitSecretToProof, handleBlock _ => lock_expired c input
  | _, _ => False
  end.

(** The silent expiry of the Target: in [init] any event, in
    [awaitRevealSecret] a block tick, at a block height at which the lock
    has expired. *)
Definition Target_silent_expiry `{Primitives} (c : TransferState)
  (st : Target.State) (input : Input) : Prop :=
  match st, input with
  | Target.init, _ => lock_expired c input
  | Target.awaitRevealSecret, handleBlock _ => lock_expired c input
  | _, _ => False
  end.

(** A RevealSecret that matches in [awaitRevealSecret] while the sender of
    the Target's own transfer, [state.from], cannot be recovered. *)
Definition Target_sender_unknown `{Primitives} (c : TransferState)
  (st : Target.State) (input : Input) : Prop :=
  match st, input with
  | Target.awaitRevealSecret, receiveRevealSecret rv =>
      Target_RevealSecret_matches c rv
      /\ forall back : Buffer,
           SignedMessage.from (transfer c) <> Return back
  | _, _ => False
  end.

(** The property as the specification states it: a matched event causes one
    emitted event and one state change, a mismatched event neither. *)
Definition one_emit_one_move `{Primitives} (c : TransferState)
  (input : Input) : Prop :=
  (forall st : Initiator.State,
     (Initiator_matched c st input ->
      one_of_each (Initiator_effects c st input))
     /\ (~ Initiator_matched c st input ->
         none_of_either (Initiator_effects c st input)))
  /\ (forall st : Target.State,
        (Target_matched c st input ->
         one_of_each (Target_effects c st input))
        /\ (~ Target_matched c st input ->
            none_of_either (Target_effects c st input))).

(** The transfer of the scenario as a Target holds it when nobody has
    signed it. *)
Definition example_unsigned_state : TransferState :=
  {| transfer := MediatedTransfer_with_signature example_transfer None;
     secret := None; revealTo := None |}.

(** A RevealSecret of the scenario's secret, signed by the initiator. *)
Definition example_revealSecret_of_initiator : RevealSecret.t :=
  {| RevealSecret.super :=
       {| SignedMessage.signature := example_signature (repeat xdd 20) |};
     RevealSecret.secret := example_secret;
     RevealSecret.to := repeat xbb 20 |}.

(** * Properties *)

(** ** Completions *)

Lemma bind_Return {A B : Type} (a : A) (k : A -> Completion B) :
  bind (Return a) k = k a.
Proof. reflexivity. Qed.

(** ** Buffers *)

Lemma Byte_to_N_inj (x y : byte) : Byte.to_N x = Byte.to_N y -> x = y.
Proof.
  intros E. pose proof (Byte.of_to_N x) as Hx.
  rewrite E, Byte.of_to_N in Hx. congruence.
Qed.

Lemma Buffer_compare_refl (a : Buffer) : Buffer_compare a a = 0%Z.
Proof.
  induction a as [| x a IH]; simpl; [reflexivity |].
  rewrite N.compare_refl. exact IH.
Qed.

Lemma Buffer_compare_eq (a b : Buffer) : Buffer_compare a b = 0%Z -> a = b.
Proof.
  revert b. induction a as [| x a IH]; intros [| y b]; simpl;
    try discriminate; [reflexivity |].
  destruct (N.compare_spec (Byte.to_N x) (Byte.to_N y)) as [E | L | G];
    try discriminate.
  intros C. apply Byte_to_N_inj in E. apply IH in C. congruence.
Qed.

(** [a.compare(b) === 0] holds exactly when both buffers hold the same
    bytes. *)
Lemma same_iff (a b : Buffer) : same a b = true <-> a = b.
Proof.
  unfold same. rewrite Z.eqb_eq. split.
  - apply Buffer_compare_eq.
  - intros ->. apply Buffer_compare_refl.
Qed.

Lemma same_refl (a : Buffer) : same a a = true.
Proof. apply same_iff. reflexivity. Qed.

Lemma Buffer_alloc_length (n : nat) : List.length (Buffer_alloc n) = n.
Proof. apply repeat_length. Qed.

Lemma setLengthLeft_length (b : Buffer) (n : nat) :
  List.length (setLengthLeft b n) = n.
Proof.
  unfold setLengthLeft, slice_last.
  destruct (Nat.ltb_spec (List.length b) n).
  - rewrite length_app, Buffer_alloc_length. lia.
  - rewrite length_skipn. lia.
Qed.

Lemma setLengthRight_length (b : Buffer) (n : nat) :
  List.length (setLengthRight b n) = n.
Proof.
  unfold setLengthRight, slice_first.
  destruct (Nat.ltb_spec (List.length b) n).
  - rewrite length_app, Buffer_alloc_length. lia.
  - rewrite length_firstn. lia.
Qed.

Lemma app_inj_length {A : Type} (a a' b b' : list A) :
  List.length a = List.length a' -> a ++ b = a' ++ b' -> a = a' /\ b = b'.
Proof.
  revert a'. induction a as [| x a IH]; intros [| y a']; simpl;
    try discriminate.
  - intros _ E. split; [reflexivity | exact E].
  - intros L E. injection E as -> E. injection L as L.
    destruct (IH _ L E) as [-> ->]. split; reflexivity.
Qed.

(** A buffer that already has the wanted width is packed as it is. *)
Lemma setLengthLeft_exact (b : Buffer) (n : nat) :
  List.length b = n -> setLengthLeft b n = b.
Proof.
  intros <-. unfold setLengthLeft, slice_last.
  rewrite Nat.ltb_irrefl, Nat.sub_diag. reflexivity.
Qed.

Lemma setLengthRight_exact (b : Buffer) (n : nat) :
  List.length b = n -> setLengthRight b n = b.
Proof.
  intros <-. unfold setLengthRight, slice_first.
  rewrite Nat.ltb_irrefl. apply firstn_all.
Qed.

Lemma N_to_le_length (len : nat) (n : N) : List.length (N_to_le len n) = len.
Proof.
  revert n. induction len as [| k IH]; intros n; simpl; [reflexivity |].
  now rewrite IH.
Qed.

Lemma N_to_be_length (len : nat) (n : N) : List.length (N_to_be len n) = len.
Proof. unfold N_to_be. rewrite length_rev. apply N_to_le_length. Qed.

(** ** ABI packing *)

Lemma pack_one_length (a : AbiArg) (b : Buffer) :
  pack_one a = Return b ->
  List.length b = match a with address _ => 20 | _ => 32 end.
Proof.
  destruct a as [n | x | x]; simpl.
  - destruct (N.size n <=? 256)%N; intros E; inversion E.
    apply N_to_be_length.
  - intros E; inversion E. apply setLengthLeft_length.
  - intros E; inversion E. apply setLengthRight_length.
Qed.

Lemma solidityPack_app (xs ys : list AbiArg) :
  solidityPack (xs ++ ys) =
  (a <- solidityPack xs ;; b <- solidityPack ys ;; Return (a ++ b)).
Proof.
  induction xs as [| x xs IH]; simpl.
  - destruct (solidityPack ys); reflexivity.
  - destruct (pack_one x) as [a | e |]; simpl; try reflexivity.
    rewrite IH. destruct (solidityPack xs) as [b | e |]; simpl;
      try reflexivity.
    destruct (solidityPack ys) as [c | e |]; simpl; try reflexivity.
    now rewrite app_assoc.
Qed.

Lemma solidityPack_length (args : list AbiArg) (b : Buffer) :
  solidityPack args = Return b -> List.length b = width args.
Proof.
  revert b. induction args as [| a rest IH]; intros b; simpl.
  - intros E; inversion E. reflexivity.
  - destruct (pack_one a) as [x | e |] eqn:Ea; simpl; try discriminate.
    destruct (solidityPack rest) as [xs | e |]; simpl; try discriminate.
    intros E; inversion E. rewrite length_app, (IH xs eq_refl).
    rewrite (pack_one_length _ Ea). destruct a; reflexivity.
Qed.

(** ** Hash pre-images *)

Lemma lookup_assign_other {A : Type} (k k' : string) (x : A)
  (l : list (string * A)) :
  String.eqb k k' = false -> lookup k (assign k' x l) = lookup k l.
Proof.
  intros Hk. induction l as [| [k0 y] l IH]; simpl.
  - now rewrite Hk.
  - destruct (String.eqb k' k0) eqn:E0; simpl.
    + apply String.eqb_eq in E0. subst k0. now rewrite Hk.
    + now rewrite IH.
Qed.

Lemma lookup_assign_same {A : Type} (k : string) (x : A)
  (l : list (string * A)) :
  lookup k (assign k x l) = Some x.
Proof.
  induction l as [| [k0 y] l IH]; simpl.
  - now rewrite String.eqb_refl.
  - destruct (String.eqb k k0) eqn:E0; simpl.
    + now rewrite String.eqb_refl.
    + now rewrite E0.
Qed.

(** The pre-image of a MediatedTransfer determines target and initiator:
    two transfers with 20-byte addresses and the same pre-image have the same
    target and the same initiator. *)
Lemma MediatedTransfer_preimage_binds (m1 m2 : MediatedTransfer.t)
  (f1 f2 lh1 lh2 : Buffer) :
  solidityPack (transfer_fields m1) = Return f1 ->
  solidityPack (transfer_fields m2) = Return f2 ->
  List.length (MediatedTransfer.target m1) = 20 ->
  List.length (MediatedTransfer.initiator m1) = 20 ->
  List.length (MediatedTransfer.target m2) = 20 ->
  List.length (MediatedTransfer.initiator m2) = 20 ->
  f1 ++ setLengthLeft (MediatedTransfer.target m1) 20
     ++ setLengthLeft (MediatedTransfer.initiator m1) 20
     ++ setLengthRight lh1 32 =
  f2 ++ setLengthLeft (MediatedTransfer.target m2) 20
     ++ setLengthLeft (MediatedTransfer.initiator m2) 20
     ++ setLengthRight lh2 32 ->
  MediatedTransfer.target m1 = MediatedTransfer.target m2
  /\ MediatedTransfer.initiator m1 = MediatedTransfer.initiator m2.
Proof.
  intros Hf1 Hf2 Ht1 Hi1 Ht2 Hi2 E.
  apply solidityPack_length in Hf1, Hf2.
  rewrite !setLengthLeft_exact in E by assumption.
  apply app_inj_length in E; [| now rewrite Hf1, Hf2].
  destruct E as [_ E].
  apply app_inj_length in E; [| congruence]. destruct E as [Et E].
  apply app_inj_length in E; [| congruence]. destruct E as [Ei _].
  split; assumption.
Qed.

(** C5. The digest of a MediatedTransfer is the hash of the packed fields
    a LockedTransfer hashes before its lock (msgID, nonce, transferredAmount,
    channelAddress, locksRoot, to), then target and initiator as 20-byte
    addresses, then the lock's own hash as 32 bytes, where the lock's own
    hash is the hash of its packed amount, expiration and hashLock; a
    LockedTransfer hashes the same fields followed by the lock's hash
    alone, and a DirectTransfer the fields alone.  Two MediatedTransfers
    with 20-byte addresses and the same pre-image have the same target and
    the same initiator. *)
Theorem MediatedTransfer_hash_preimage `{Primitives}
  (m : MediatedTransfer.t) :
  MediatedTransfer.getMessageHash m =
    (preimage <- MediatedTransfer_preimage m ;; Return (sha3 preimage))
  /\ LockedTransfer.getMessageHash m =
    (preimage <- LockedTransfer_preimage m ;; Return (sha3 preimage))
  /\ DirectTransfer.getMessageHash m =
    (fields <- solidityPack (transfer_fields m) ;;
     Return (sha3 fields))
  /\ (forall l : Lock.t,
        Lock.getMessageHash l =
        (lockBytes <- Lock_preimage l ;; Return (sha3 lockBytes)))
  /\ (forall (m' : MediatedTransfer.t) (preimage : Buffer),
        MediatedTransfer_preimage m = Return preimage ->
        MediatedTransfer_preimage m' = Return preimage ->
        List.length (MediatedTransfer.target m) = 20 ->
        List.length (MediatedTransfer.initiator m) = 20 ->
        List.length (MediatedTransfer.target m') = 20 ->
        List.length (MediatedTransfer.initiator m') = 20 ->
        MediatedTransfer.target m = MediatedTransfer.target m'
        /\ MediatedTransfer.initiator m = MediatedTransfer.initiator m').
Proof.
  split; [| split; [| split; [| split]]].
  - unfold MediatedTransfer.getMessageHash, MediatedTransfer_preimage,
      LockedTransfer.lock_getMessageHash, Lock.getMessageHash, Lock_preimage,
      soliditySHA3.
    destruct (LockedTransfer.lock m) as [l |]; [| reflexivity].
    destruct (solidityPack _) as [lockBytes | e |] at 1 2;
      [rewrite !bind_Return | reflexivity | reflexivity].
    change (solidityPack _) with
      (solidityPack
         (transfer_fields m ++
          [address (MediatedTransfer.target m);
           address (MediatedTransfer.initiator m);
           bytes32 (sha3 lockBytes)])) at 1.
    rewrite solidityPack_app.
    destruct (solidityPack (transfer_fields m)) as [f | e |]; simpl;
      try reflexivity.
    now rewrite !app_nil_r.
  - unfold LockedTransfer.getMessageHash, LockedTransfer_preimage,
      LockedTransfer.lock_getMessageHash, Lock.getMessageHash, Lock_preimage,
      soliditySHA3.
    destruct (LockedTransfer.lock m) as [l |]; [| reflexivity].
    destruct (solidityPack _) as [lockBytes | e |] at 1 2;
      [rewrite !bind_Return | reflexivity | reflexivity].
    change (solidityPack _) with
      (solidityPack (transfer_fields m ++ [bytes32 (sha3 lockBytes)])) at 1.
    rewrite solidityPack_app.
    destruct (solidityPack (transfer_fields m)) as [f | e |]; simpl;
      try reflexivity.
    now rewrite !app_nil_r.
  - reflexivity.
  - reflexivity.
  - intros m' preimage E E' Ht Hi Ht' Hi'.
    unfold MediatedTransfer_preimage in E, E'.
    destruct (LockedTransfer.lock m) as [l |]; [| discriminate].
    destruct (LockedTransfer.lock m') as [l' |]; [| discriminate].
    destruct (Lock_preimage l) as [lb | e |]; cbn [bind] in E;
      try discriminate.
    destruct (Lock_preimage l') as [lb' | e |]; cbn [bind] in E';
      try discriminate.
    destruct (solidityPack (transfer_fields m)) as [f | e |] eqn:Hf;
      cbn [bind] in E; try discriminate.
    destruct (solidityPack (transfer_fields m')) as [f' | e |] eqn:Hf';
      cbn [bind] in E'; try discriminate.
    injection E as E. injection E' as E'.
    apply (MediatedTransfer_preimage_binds m m' (sha3 lb) (sha3 lb')
             Hf Hf' Ht Hi Ht' Hi').
    now rewrite E, E'.
Qed.

(** The constructor of RequestSecret reads five properties of its options
    and no other. *)
Lemma RequestSecret_new_ignores (k : string) (x : Value)
  (props : list (string * Value)) :
  ~ In k ["signature"; "msgID"; "to"; "hashLock"; "amount"] ->
  RequestSecret.new (VObject (assign k x props)) =
  RequestSecret.new (VObject props).
Proof.
  intros Hk.
  assert (Hne : forall k', In k' ["signature"; "msgID"; "to"; "hashLock";
                                  "amount"] -> String.eqb k' k = false).
  { intros k' Hin. apply String.eqb_neq. intros ->. contradiction. }
  unfold RequestSecret.new, SignedMessage.new, get_BN, get_Buffer, get.
  rewrite !lookup_assign_other by (apply Hne; cbn; tauto).
  reflexivity.
Qed.

(** C6. The digest of a RequestSecret is the hash of msgID as a 256-bit
    integer, to as an address, hashLock as 32 bytes and amount as a 256-bit
    integer, in this order and nothing else (it fails when an integer
    does not fit); an [expiration] among the constructor's options changes
    neither the message nor its hash. *)
Theorem RequestSecret_hash_preimage `{Primitives} :
  (forall rs : RequestSecret.t,
     RequestSecret.getHash rs =
       if (N.size (RequestSecret.msgID rs) <=? 256)%N
       then if (N.size (RequestSecret.amount rs) <=? 256)%N
            then Return
                   (sha3 (N_to_be 32 (RequestSecret.msgID rs)
                          ++ setLengthLeft (RequestSecret.to rs) 20
                          ++ setLengthRight (RequestSecret.hashLock rs) 32
                          ++ N_to_be 32 (RequestSecret.amount rs)))
            else Throw (JsError
                          ("Supplied uint exceeds width: 256 vs "
                           ++ Number_toString
                                (N.size (RequestSecret.amount rs))))
       else Throw (JsError
                     ("Supplied uint exceeds width: 256 vs "
                      ++ Number_toString
                           (N.size (RequestSecret.msgID rs)))))
  /\ (forall (props : list (string * Value)) (expiration : Value),
        RequestSecret.new (VObject (assign "expiration" expiration props)) =
        RequestSecret.new (VObject props))
  /\ (forall (props : list (string * Value)) (expiration : Value),
        (rs <- RequestSecret.new
                 (VObject (assign "expiration" expiration props)) ;;
         RequestSecret.getHash rs) =
        (rs <- RequestSecret.new (VObject props) ;;
         RequestSecret.getHash rs)).
Proof.
  assert (Hnew : forall props expiration,
             RequestSecret.new
               (VObject (assign "expiration" expiration props)) =
             RequestSecret.new (VObject props)).
  { intros props e. apply RequestSecret_new_ignores.
    cbn. intros [E | [E | [E | [E | [E | []]]]]]; discriminate. }
  split; [| split].
  - intros rs. unfold RequestSecret.getHash, soliditySHA3.
    cbn [solidityPack pack_one].
    destruct (N.size (RequestSecret.msgID rs) <=? 256)%N; cbn [bind];
      [| reflexivity].
    destruct (N.size (RequestSecret.amount rs) <=? 256)%N; cbn [bind];
      [| reflexivity].
    now rewrite app_nil_r.
  - exact Hnew.
  - intros props e. now rewrite Hnew.
Qed.

(** ** The state machines *)

Ltac run_handler :=
  unfold machina.seq, machina.eval, machina.this_client, machina.update,
    machina.emit, machina.ret, machina.nohandler, Initiator.transition,
    Target.transition, machina.transition;
  cbn [machina.client machina.state machina.effects fst snd].


Lemma Buffer_eq_dec (a b : Buffer) : a = b \/ a <> b.
Proof.
  destruct (same a b) eqn:E.
  - left. now apply same_iff.
  - right. intros ->. rewrite same_refl in E. discriminate.
Qed.

Lemma Return_eq_dec (c : Completion Buffer) (b : Buffer) :
  c = Return b \/ c <> Return b.
Proof.
  destruct c as [a | e |]; try (right; discriminate).
  destruct (Buffer_eq_dec a b) as [-> | N]; [left; reflexivity |].
  right. intros E. injection E as E. contradiction.
Qed.

Lemma hashLock_eq_dec (l : option Lock.t) (b : Buffer) :
  option_map Lock.hashLock l = Some b \/ option_map Lock.hashLock l <> Some b.
Proof.
  destruct l as [l |]; cbn [option_map]; [| right; discriminate].
  destruct (Buffer_eq_dec (Lock.hashLock l) b) as [-> | N];
    [left; reflexivity |].
  right. intros E. injection E as E. contradiction.
Qed.

Lemma RequestSecret_matches_dec `{Primitives} (c : TransferState)
  (rs : RequestSecret.t) :
  RequestSecret_matches c rs \/ ~ RequestSecret_matches c rs.
Proof.
  unfold RequestSecret_matches.
  destruct (Return_eq_dec (SignedMessage.from rs)
              (MediatedTransfer.target c)) as [E1 | N1];
    [| right; tauto].
  destruct (hashLock_eq_dec (LockedTransfer.lock c)
              (RequestSecret.hashLock rs)) as [E2 | N2];
    [| right; tauto].
  destruct (N.eq_dec (DirectTransfer.msgID c) (RequestSecret.msgID rs))
    as [E3 | N3]; [left; tauto | right; tauto].
Qed.

Lemma RevealSecret_matches_dec `{Primitives} (c : TransferState)
  (rv : RevealSecret.t) :
  RevealSecret_matches c rv \/ ~ RevealSecret_matches c rv.
Proof.
  unfold RevealSecret_matches.
  destruct (Return_eq_dec (SignedMessage.from rv) (DirectTransfer.to c))
    as [E1 | N1]; [| right; tauto].
  destruct (hashLock_eq_dec (LockedTransfer.lock c)
              (sha3 (RevealSecret.secret rv))) as [E2 | N2];
    [left; tauto | right; tauto].
Qed.

Lemma SecretToProof_matches_dec `{Primitives} (c : TransferState)
  (p : SecretToProof.t) :
  SecretToProof_matches c p \/ ~ SecretToProof_matches c p.
Proof.
  unfold SecretToProof_matches.
  destruct (SignedMessage.from p) as [a | e |].
  - destruct (Return_eq_dec (SignedMessage.from (transfer c)) a)
      as [E | N].
    + left. exists a. split; [reflexivity | exact E].
    + right. intros (b & Eb & Ec). injection Eb as ->. contradiction.
  - right. intros (b & Eb & _). discriminate.
  - right. intros (b & Eb & _). discriminate.
Qed.

(** C2. Initiator in [awaitRequestSecret], on a RequestSecret: when sender,
    hashLock and msgID all match, the machine records [revealTo =
    state.target], emits [GOT.sendRevealSecret] and moves to
    [awaitRevealSecret]; on any mismatch the client, its state and the
    effects are as before; the state changes exactly when all three match. *)
Theorem Initiator_awaitRequestSecret `{Primitives} (c : TransferState)
  (es : list (machina.Effect Initiator.State)) (rs : RequestSecret.t) :
  let m := {| machina.client := c;
              machina.state := Initiator.awaitRequestSecret;
              machina.effects := es |} in
  let out := Initiator.handle (receiveRequestSecret rs) m in
  (RequestSecret_matches c rs ->
   out =
   ({| machina.client :=
         {| transfer := transfer c; secret := secret c;
            revealTo := Some (MediatedTransfer.target c) |};
       machina.state := Initiator.awaitRevealSecret;
       machina.effects :=
         (es ++ [machina.Emitted "GOT.sendRevealSecret"
                   {| transfer := transfer c; secret := secret c;
                      revealTo := Some (MediatedTransfer.target c) |}])
         ++ [machina.Transitioned Initiator.awaitRequestSecret
               Initiator.awaitRevealSecret] |}, Return tt))
  /\ (~ RequestSecret_matches c rs -> fst out = m)
  /\ (machina.state (fst out) <> Initiator.awaitRequestSecret <->
      RequestSecret_matches c rs).
Proof.
  intros m out.
  assert (Hyes : RequestSecret_matches c rs ->
                 out =
                 ({| machina.client :=
                       {| transfer := transfer c; secret := secret c;
                          revealTo := Some (MediatedTransfer.target c) |};
                     machina.state := Initiator.awaitRevealSecret;
                     machina.effects :=
                       (es ++ [machina.Emitted "GOT.sendRevealSecret"
                                 {| transfer := transfer c;
                                    secret := secret c;
                                    revealTo :=
                                      Some (MediatedTransfer.target c) |}])
                       ++ [machina.Transitioned Initiator.awaitRequestSecret
                             Initiator.awaitRevealSecret] |}, Return tt)).
  { intros (Hs & Hh & Hi). subst out m. unfold Initiator.handle.
    cbn [machina.state].
    unfold Initiator.awaitRequestSecret_receiveRequestSecret, and_then,
      lock_of. run_handler.
    rewrite Hs. cbn [bind]. rewrite same_refl.
    destruct (LockedTransfer.lock c) as [l |]; [| discriminate].
    cbn [option_map] in Hh. injection Hh as Hh.
    cbn [bind]. rewrite Hh, same_refl, Hi, N.eqb_refl. reflexivity. }
  assert (Hno : ~ RequestSecret_matches c rs -> fst out = m).
  { intros Hn. subst out m. unfold Initiator.handle. cbn [machina.state].
    unfold Initiator.awaitRequestSecret_receiveRequestSecret, and_then,
      lock_of. run_handler.
    destruct (SignedMessage.from rs) as [sender | e |] eqn:Hs;
      cbn [bind]; try reflexivity.
    destruct (same (MediatedTransfer.target c) sender) eqn:E1;
      [| reflexivity].
    destruct (LockedTransfer.lock c) as [l |] eqn:Hl; cbn [bind];
      [| reflexivity].
    destruct (same (Lock.hashLock l) (RequestSecret.hashLock rs)) eqn:E2;
      [| reflexivity].
    destruct (N.eqb (DirectTransfer.msgID c) (RequestSecret.msgID rs))
      eqn:E3; [| reflexivity].
    exfalso. apply Hn. apply same_iff in E1, E2. apply N.eqb_eq in E3.
    unfold RequestSecret_matches. rewrite Hl. cbn [option_map].
    repeat split; congruence. }
  split; [exact Hyes | split; [exact Hno |]].
  split.
  - intros Hmove.
    destruct (RequestSecret_matches_dec c rs) as [Hm | Hn]; [exact Hm |].
    exfalso. apply Hmove. now rewrite (Hno Hn).
  - intros Hm. rewrite (Hyes Hm). cbn. discriminate.
Qed.

(** C3. Initiator in [awaitRevealSecret], on a RevealSecret: when the sender
    is [state.to] and the secret hashes to the lock's hashLock, the machine
    emits [GOT.sendSecretToProof] and moves to [completedTransfer];
    otherwise, and in particular when the secret does not hash to the
    hashLock, the client, its state and the effects are as before. *)
Theorem Initiator_awaitRevealSecret `{Primitives} (c : TransferState)
  (es : list (machina.Effect Initiator.State)) (rv : RevealSecret.t) :
  let m := {| machina.client := c;
              machina.state := Initiator.awaitRevealSecret;
              machina.effects := es |} in
  let out := Initiator.handle (receiveRevealSecret rv) m in
  (RevealSecret_matches c rv ->
   out =
   ({| machina.client := c;
       machina.state := Initiator.completedTransfer;
       machina.effects :=
         (es ++ [machina.Emitted "GOT.sendSecretToProof" c])
         ++ [machina.Transitioned Initiator.awaitRevealSecret
               Initiator.completedTransfer] |}, Return tt))
  /\ (~ RevealSecret_matches c rv -> fst out = m)
  /\ (machina.state (fst out) <> Initiator.awaitRevealSecret <->
      RevealSecret_matches c rv)
  /\ (option_map Lock.hashLock (LockedTransfer.lock c) <>
      Some (sha3 (RevealSecret.secret rv)) -> fst out = m).
Proof.
  intros m out.
  assert (Hyes : RevealSecret_matches c rv ->
                 out =
                 ({| machina.client := c;
                     machina.state := Initiator.completedTransfer;
                     machina.effects :=
                       (es ++ [machina.Emitted "GOT.sendSecretToProof" c])
                       ++ [machina.Transitioned Initiator.awaitRevealSecret
                             Initiator.completedTransfer] |}, Return tt)).
  { intros (Hs & Hh). subst out m. unfold Initiator.handle.
    cbn [machina.state].
    unfold Initiator.awaitRevealSecret_receiveRevealSecret, and_then,
      lock_of. run_handler.
    rewrite Hs. cbn [bind]. rewrite same_refl.
    destruct (LockedTransfer.lock c) as [l |]; [| discriminate].
    cbn [option_map] in Hh. injection Hh as Hh.
    cbn [bind]. rewrite Hh, same_refl. reflexivity. }
  assert (Hno : ~ RevealSecret_matches c rv -> fst out = m).
  { intros Hn. subst out m. unfold Initiator.handle. cbn [machina.state].
    unfold Initiator.awaitRevealSecret_receiveRevealSecret, and_then,
      lock_of. run_handler.
    destruct (SignedMessage.from rv) as [sender | e |] eqn:Hs;
      cbn [bind]; try reflexivity.
    destruct (same sender (DirectTransfer.to c)) eqn:E1; [| reflexivity].
    destruct (LockedTransfer.lock c) as [l |] eqn:Hl; cbn [bind];
      [| reflexivity].
    destruct (same (Lock.hashLock l) (sha3 (RevealSecret.secret rv)))
      eqn:E2; [| reflexivity].
    exfalso. apply Hn. apply same_iff in E1, E2.
    unfold RevealSecret_matches. rewrite Hl. cbn [option_map].
    split; congruence. }
  split; [exact Hyes | split; [exact Hno | split]].
  - split.
    + intros Hmove.
      destruct (RevealSecret_matches_dec c rv) as [Hm | Hn]; [exact Hm |].
      exfalso. apply Hmove. now rewrite (Hno Hn).
    + intros Hm. rewrite (Hyes Hm). cbn. discriminate.
  - intros Hh. apply Hno. intros (_ & Hh'). contradiction.
Qed.

(** C4. Target in [awaitSecretToProof]: on a SecretToProof whose sender is
    [state.from] the machine emits [GOT.receiveSecretToProof] and moves to
    [completedTransfer], and on any other SecretToProof nothing changes; on
    a block tick with [lock.expiration <= currentBlock + REVEAL_TIMEOUT] it
    emits [GOT.closeChannel] and moves to [completedTransfer], and on an
    earlier block nothing changes. *)
Theorem Target_awaitSecretToProof `{Primitives} (c : TransferState)
  (es : list (machina.Effect Target.State)) :
  let m := {| machina.client := c;
              machina.state := Target.awaitSecretToProof;
              machina.effects := es |} in
  (forall p : SecretToProof.t,
     let out := Target.handle (receiveSecretToProof p) m in
     (SecretToProof_matches c p ->
      out =
      ({| machina.client := c;
          machina.state := Target.completedTransfer;
          machina.effects :=
            (es ++ [machina.Emitted "GOT.receiveSecretToProof" c])
            ++ [machina.Transitioned Target.awaitSecretToProof
                  Target.completedTransfer] |}, Return tt))
     /\ (~ SecretToProof_matches c p -> fst out = m)
     /\ (machina.state (fst out) <> Target.awaitSecretToProof <->
         SecretToProof_matches c p))
  /\ (forall (l : Lock.t) (currentBlock : BN),
        LockedTransfer.lock c = Some l ->
        Target.handle (handleBlock currentBlock) m =
        if (Lock.expiration l <=? currentBlock + REVEAL_TIMEOUT)%N
        then ({| machina.client := c;
                 machina.state := Target.completedTransfer;
                 machina.effects :=
                   (es ++ [machina.Emitted "GOT.closeChannel" c])
                   ++ [machina.Transitioned Target.awaitSecretToProof
                         Target.completedTransfer] |}, Return tt)
        else (m, Return tt)).
Proof.
  intros m. split.
  - intros p out.
    assert (Hyes : SecretToProof_matches c p ->
                   out =
                   ({| machina.client := c;
                       machina.state := Target.completedTransfer;
                       machina.effects :=
                         (es ++ [machina.Emitted "GOT.receiveSecretToProof"
                                   c])
                         ++ [machina.Transitioned Target.awaitSecretToProof
                               Target.completedTransfer] |}, Return tt)).
    { intros (a & Hp & Hc). subst out m. unfold Target.handle.
      cbn [machina.state].
      unfold Target.awaitSecretToProof_receiveSecretToProof. run_handler.
      rewrite Hp, Hc. cbn [bind]. rewrite same_refl. reflexivity. }
    assert (Hno : ~ SecretToProof_matches c p -> fst out = m).
    { intros Hn. subst out m. unfold Target.handle. cbn [machina.state].
      unfold Target.awaitSecretToProof_receiveSecretToProof. run_handler.
      destruct (SignedMessage.from p) as [a | e |] eqn:Hp; cbn [bind];
        try reflexivity.
      destruct (SignedMessage.from (transfer c)) as [b | e |] eqn:Hc;
        cbn [bind]; try reflexivity.
      destruct (same a b) eqn:E; [| reflexivity].
      exfalso. apply Hn. apply same_iff in E. subst b.
      exists a. split; [exact Hp | exact Hc]. }
    split; [exact Hyes | split; [exact Hno |]].
    split.
    + intros Hmove.
      destruct (SecretToProof_matches_dec c p) as [Hm | Hn]; [exact Hm |].
      exfalso. apply Hmove. now rewrite (Hno Hn).
    + intros Hm. rewrite (Hyes Hm). cbn. discriminate.
  - intros l currentBlock Hl. subst m. unfold Target.handle.
    cbn [machina.state].
    unfold Target.awaitSecretToProof_handleBlock, expired, lock_of.
    run_handler. rewrite Hl. cbn [bind].
    destruct (Lock.expiration l <=? currentBlock + REVEAL_TIMEOUT)%N;
      reflexivity.
Qed.

Ltac case_completion :=
  match goal with
  | |- context [bind ?c _] =>
      match c with
      | Return _ => cbn [bind]
      | _ => let E := fresh "E" in
             destruct c eqn:E; cbn [bind]
      end
  | |- context [if ?b then _ else _] =>
      let E := fresh "E" in destruct b eqn:E
  | |- context [match LockedTransfer.lock ?c with _ => _ end] =>
      let E := fresh "E" in destruct (LockedTransfer.lock c) eqn:E
  | |- context [match ?c with Return _ => _ | Throw _ => _
                            | Unmodelled => _ end] =>
      let E := fresh "E" in destruct c eqn:E
  end.

Lemma same_false (a b : Buffer) : same a b = false -> a <> b.
Proof. intros E ->. rewrite same_refl in E. discriminate. Qed.

(** Booleans of the handlers as the equations they decide. *)
Ltac reflect_tests :=
  repeat match goal with
         | E : same _ _ = true |- _ => apply same_iff in E
         | E : same _ _ = false |- _ => apply same_false in E
         | E : N.eqb _ _ = true |- _ => apply N.eqb_eq in E
         | E : N.eqb _ _ = false |- _ => apply N.eqb_neq in E
         | E : (_ <=? _)%N = true |- _ => apply N.leb_le in E
         | E : (_ <=? _)%N = false |- _ => apply N.leb_gt in E
         end.

(** A match condition against the outcome of the tests. *)
Ltac by_tests :=
  unfold RequestSecret_matches, RevealSecret_matches,
    Target_RevealSecret_matches, SecretToProof_matches, lock_expired,
    lock_not_expired in *;
  repeat match goal with
         | E : LockedTransfer.lock _ = _ |- _ => rewrite E in *; clear E
         end;
  cbn [option_map] in *;
  repeat match goal with
         | Hm : exists _, _ |- _ => destruct Hm as [? Hm]
         | Hm : _ /\ _ |- _ => destruct Hm as [? Hm]
         end.

(** The tests of a handler, innermost first. *)
Ltac case_test :=
  match goal with
  | |- context [bind (SignedMessage.from ?m) _] =>
      let E := fresh "E" in
      destruct (SignedMessage.from m) eqn:E; cbn [bind]
  | |- context [match SignedMessage.from ?m with
                | Return _ => _ | Throw _ => _ | Unmodelled => _ end] =>
      let E := fresh "E" in
      destruct (SignedMessage.from m) eqn:E; cbn [bind]
  | |- context [match LockedTransfer.lock ?c with _ => _ end] =>
      let E := fresh "E" in
      destruct (LockedTransfer.lock c) eqn:E; cbn [bind]
  | |- context [Target.currentBlock_of ?i] =>
      let E := fresh "E" in
      destruct (Target.currentBlock_of i) eqn:E; cbn [bind]
  | |- context [same ?a ?b] =>
      let E := fresh "E" in destruct (same a b) eqn:E; cbn [bind]
  | |- context [N.eqb ?a ?b] =>
      let E := fresh "E" in destruct (N.eqb a b) eqn:E; cbn [bind]
  | |- context [(?a <=? ?b)%N] =>
      let E := fresh "E" in destruct (a <=? b)%N eqn:E; cbn [bind]
  end.

(** One handler against its match condition: with the tests decided, the
    effects are counted, and the condition is compared with the tests. *)
Ltac matched_or_not :=
  repeat case_test; reflect_tests;
  (split;
   [ let Hm := fresh "Hm" in
     intros Hm;
     solve [ split; reflexivity | exfalso; by_tests; congruence ]
   | let Hn := fresh "Hn" in
     intros Hn;
     solve [ split; reflexivity
           | exfalso; apply Hn; by_tests; repeat split; congruence ] ]).

Lemma Initiator_matched_effects `{Primitives} (c : TransferState)
  (st : Initiator.State) (input : Input) :
  (Initiator_matched c st input ->
   one_of_each (Initiator_effects c st input))
  /\ (~ Initiator_matched c st input ->
      none_of_either (Initiator_effects c st input)).
Proof.
  unfold Initiator_effects, Initiator.handle, one_of_each, none_of_either.
  cbn [machina.state].
  destruct st; cbn [Initiator_matched].
  - split; [intros _; split; reflexivity | intros N; exfalso; now apply N].
  - destruct input;
      try (split; [intros [] | intros _; split; reflexivity]).
    unfold Initiator.awaitRequestSecret_receiveRequestSecret, and_then,
      lock_of. run_handler. matched_or_not.
  - destruct input;
      try (split; [intros [] | intros _; split; reflexivity]).
    unfold Initiator.awaitRevealSecret_receiveRevealSecret, and_then,
      lock_of. run_handler. matched_or_not.
  - split; [intros [] | intros _; split; reflexivity].
  - split; [intros [] | intros _; split; reflexivity].
  - split; [intros [] | intros _; split; reflexivity].
Qed.

(** Two readings of the same lock and block height. *)
Ltac same_reading :=
  repeat match goal with
         | Hm : exists _, _ |- _ => destruct Hm as [? Hm]
         | Hm : _ /\ _ |- _ => destruct Hm as [? Hm]
         end;
  repeat match goal with
         | E : Some _ = Some _ |- _ => injection E as E; subst
         | E : Return _ = Return _ |- _ => injection E as E; subst
         | E : None = Some _ |- _ => discriminate E
         | E : Throw _ = Return _ |- _ => discriminate E
         | E : Unmodelled = Return _ |- _ => discriminate E
         end.

(** The four cases of the Target for one outcome of the tests. *)
Ltac target_leaf :=
  reflect_tests;
  (split; [| split; [| split]]);
  [ let Hm := fresh "Hm" in
    intros Hm;
    solve [ destruct Hm | reflexivity | exfalso; same_reading; lia ]
  | let Hm := fresh "Hm" in
    let Hu := fresh "Hu" in
    intros Hm Hu;
    solve [ destruct Hm
          | split; reflexivity
          | exfalso; apply Hu; split; [exact Hm | intros ?; congruence]
          | exfalso; by_tests; congruence
          | exfalso; same_reading; lia ]
  | let Hu := fresh "Hu" in
    intros Hu;
    solve [ destruct Hu
          | split; reflexivity
          | exfalso; destruct Hu as [_ Hu]; eapply Hu; reflexivity
          | exfalso; destruct Hu as [Hu _]; by_tests; congruence ]
  | let Hn := fresh "Hn" in
    let He := fresh "He" in
    intros Hn He;
    solve [ split; reflexivity
          | exfalso; apply Hn; by_tests; repeat split; congruence
          | exfalso; apply Hn; by_tests; eexists; split;
            [eassumption | congruence]
          | exfalso; apply Hn; do 2 eexists; repeat split;
            first [eassumption | reflexivity | lia]
          | exfalso; apply He; do 2 eexists; repeat split;
            first [eassumption | reflexivity | lia] ] ].

Lemma Target_matched_effects `{Primitives} (c : TransferState)
  (st : Target.State) (input : Input) :
  (Target_silent_expiry c st input ->
   Target_effects c st input =
   [machina.Transitioned st Target.expiredTransfer])
  /\ (Target_matched c st input -> ~ Target_sender_unknown c st input ->
      one_of_each (Target_effects c st input))
  /\ (Target_sender_unknown c st input ->
      none_of_either (Target_effects c st input))
  /\ (~ Target_matched c st input -> ~ Target_silent_expiry c st input ->
      none_of_either (Target_effects c st input)).
Proof.
  unfold Target_effects, Target.handle, one_of_each, none_of_either.
  cbn [machina.state].
  destruct st;
    cbn [Target_matched Target_silent_expiry Target_sender_unknown].
  - unfold Target.init_any, expired, lock_of, lock_expired,
      lock_not_expired. run_handler.
    repeat case_test; target_leaf.
  - destruct input;
      try (split; [| split; [| split]];
           [ intros [] | intros [] | intros []
           | intros _ _; split; reflexivity ]).
    + unfold Target.awaitRevealSecret_receiveRevealSecret, and_then,
        lock_of. run_handler.
      repeat case_test; target_leaf.
    + unfold Target.awaitRevealSecret_handleBlock, expired, lock_of,
        lock_expired. run_handler. cbn [Target.currentBlock_of].
      repeat case_test; target_leaf.
  - destruct input;
      try (split; [| split; [| split]];
           [ intros [] | intros [] | intros []
           | intros _ _; split; reflexivity ]).
    + unfold Target.awaitSecretToProof_receiveSecretToProof. run_handler.
      repeat case_test; target_leaf.
    + unfold Target.awaitSecretToProof_handleBlock, expired, lock_of,
        lock_expired. run_handler. cbn [Target.currentBlock_of].
      repeat case_test; target_leaf.
  - split; [| split; [| split]];
      [ intros [] | intros [] | intros []
      | intros _ _; split; reflexivity ].
  - split; [| split; [| split]];
      [ intros [] | intros [] | intros []
      | intros _ _; split; reflexivity ].
Qed.



(** ** Serialization round trips *)

Lemma traverse_map {A B C : Type} (g : A -> B) (f : B -> Completion C)
  (l : list A) :
  traverse f (map g l) = traverse (fun x => f (g x)) l.
Proof.
  induction l as [| x l IH]; simpl; [reflexivity |]. now rewrite IH.
Qed.

Lemma traverse_Return {A B : Type} (f : A -> Completion B) (h : A -> B)
  (l : list A) :
  (forall x, f x = Return (h x)) -> traverse f l = Return (map h l).
Proof.
  intros Hf. induction l as [| x l IH]; simpl; [reflexivity |].
  now rewrite Hf, IH.
Qed.

Lemma byte_of_N_to_N (x : byte) : byte_of_N (Byte.to_N x) = x.
Proof.
  unfold byte_of_N. pose proof (Byte.to_N_bounded x) as Hb.
  rewrite N.mod_small by lia. now rewrite Byte.of_to_N.
Qed.

Lemma byte_exact_double (x : byte) :
  exact_double (Z.of_N (Byte.to_N x)) = true.
Proof.
  unfold exact_double. apply Z.leb_le.
  pose proof (Byte.to_N_bounded x) as Hb.
  assert (H53 : (256 < 2 ^ 53)%Z) by reflexivity. lia.
Qed.

Lemma toBuffer_array_mod (ns : list Z) :
  toBuffer_array (map VNumber ns) =
  Return (map (fun n => byte_of_N (Z.to_N (n mod 256))) ns).
Proof.
  induction ns as [| n ns IH]; [reflexivity |].
  cbn [map toBuffer_array]. rewrite IH. reflexivity.
Qed.

Lemma numbers_parse_text (ns : list Z) :
  Forall (fun n => exact_double n = true) ns ->
  traverse JSON_parse_text (map JNumber ns) = Return (map VNumber ns).
Proof.
  induction 1 as [| n ns Hn _ IH]; [reflexivity |].
  cbn [map traverse JSON_parse_text]. rewrite Hn. cbn [bind].
  fold (traverse JSON_parse_text). rewrite IH. reflexivity.
Qed.

Lemma numbers_internalize (ns : list Z) :
  traverse (internalize JSON_REVIVER_FUNC "") (map VNumber ns) =
  Return (map VNumber ns).
Proof.
  induction ns as [| n ns IH]; [reflexivity |].
  cbn [map traverse internalize JSON_REVIVER_FUNC bind].
  fold (traverse (internalize JSON_REVIVER_FUNC "")). rewrite IH.
  reflexivity.
Qed.

(** An object [{type: 'Buffer', data: [numbers]}] is revived as the Buffer
    of its numbers modulo 256. *)
Lemma Buffer_document (k : string) (ns : list Z) :
  Forall (fun n => exact_double n = true) ns ->
  JSON_parse JSON_REVIVER_FUNC k
    (JObject [("type", JString "Buffer");
              ("data", JArray (map JNumber ns))]) =
  Return (VBuffer (map (fun n => byte_of_N (Z.to_N (n mod 256))) ns)).
Proof.
  intros Hns. unfold JSON_parse.
  cbn [JSON_parse_text traverse fst snd bind].
  fold (traverse JSON_parse_text). rewrite (numbers_parse_text Hns).
  cbn [bind]. change (own_members ?l) with l.
  cbn [internalize traverse fst snd bind JSON_REVIVER_FUNC].
  fold (traverse (internalize JSON_REVIVER_FUNC "")).
  rewrite numbers_internalize. cbn. now rewrite toBuffer_array_mod.
Qed.

(** A Buffer comes back from its JSON form byte for byte. *)
Lemma Buffer_round_trip (k : string) (b : Buffer) :
  JSON_parse JSON_REVIVER_FUNC k (Buffer_toJSON b) = Return (VBuffer b).
Proof.
  unfold Buffer_toJSON.
  rewrite <- (map_map (fun x => Z.of_N (Byte.to_N x)) JNumber).
  rewrite Buffer_document.
  - rewrite map_map. f_equal. f_equal.
    rewrite <- (map_id b) at 2. apply map_ext. intros x.
    pose proof (Byte.to_N_bounded x) as Hb.
    rewrite Z.mod_small by lia. now rewrite N2Z.id, byte_of_N_to_N.
  - apply Forall_forall. intros n Hn. apply in_map_iff in Hn.
    destruct Hn as (x & <- & _). apply byte_exact_double.
Qed.

Lemma all_hex_of_pos (p : positive) (rest : string) :
  all_hex (HexString.Raw.of_pos p rest) = all_hex rest.
Proof.
  remember (Pos.size_nat p) as fuel eqn:Hfuel.
  assert (Hle : Pos.size_nat p <= fuel) by lia. clear Hfuel.
  revert p rest Hle. induction fuel as [| fuel IH]; intros p rest Hle.
  - destruct p; cbn in Hle; lia.
  - do 4 (try destruct p as [p | p |]); try reflexivity;
      cbn [HexString.Raw.of_pos]; cbn [Pos.size_nat] in Hle;
      (rewrite IH; [reflexivity | lia]).
Qed.

(** [new BN(n.toString(16), 16)] is [n]. *)
Lemma BN_round_trip (n : BN) : TO_BN (VString (BN_toString16 n)) = Return n.
Proof.
  unfold TO_BN, BN_parse16, BN_toString16.
  destruct n as [| p]; [reflexivity |].
  rewrite all_hex_of_pos. cbn [all_hex].
  now rewrite HexString.Raw.to_N_of_pos.
Qed.

(** ** Objects with distinct keys *)

Lemma lookup_app {A : Type} (k : string) (l l' : list (string * A)) :
  lookup k (l ++ l') =
  match lookup k l with
  | Some x => Some x
  | None => lookup k l'
  end.
Proof.
  induction l as [| [k0 y] l IH]; [reflexivity |].
  cbn [app lookup]. destruct (String.eqb k k0); [reflexivity | exact IH].
Qed.

Lemma assign_fresh {A : Type} (k : string) (x : A) (l : list (string * A)) :
  lookup k l = None -> assign k x l = l ++ [(k, x)].
Proof.
  induction l as [| [k0 y] l IH]; [reflexivity |].
  cbn [lookup assign app]. destruct (String.eqb k k0); [discriminate |].
  intros E. now rewrite IH.
Qed.

Lemma lookup_None {A : Type} (k : string) (l : list (string * A)) :
  existsb (String.eqb k) (map fst l) = false -> lookup k l = None.
Proof.
  induction l as [| [k0 y] l IH]; [reflexivity |].
  cbn [map fst existsb lookup]. destruct (String.eqb k k0); [discriminate |].
  exact IH.
Qed.

Lemma existsb_eqb_app (k : string) (l l' : list string) :
  existsb (String.eqb k) (l ++ l') =
  existsb (String.eqb k) l || existsb (String.eqb k) l'.
Proof. apply existsb_app. Qed.

Lemma distinct_keys_app (l l' : list string) :
  distinct_keys (l ++ l') = true ->
  distinct_keys l' = true
  /\ forall k, In k l' -> existsb (String.eqb k) l = false.
Proof.
  induction l as [| k0 l IH]; cbn [app distinct_keys].
  - intros E. split; [exact E | reflexivity].
  - intros E. apply andb_true_iff in E. destruct E as [E0 E].
    apply negb_true_iff in E0. rewrite existsb_eqb_app in E0.
    apply orb_false_iff in E0. destruct E0 as [_ E0].
    destruct (IH E) as [Hd Hfresh]. split; [exact Hd |].
    intros k Hk. cbn [existsb]. rewrite (Hfresh k Hk), orb_false_r.
    destruct (String.eqb_spec k k0) as [-> | _]; [| reflexivity].
    assert (Hin : existsb (String.eqb k0) l' = true).
    { apply existsb_exists. exists k0. split; [exact Hk |].
      apply String.eqb_refl. }
    congruence.
Qed.

Lemma fold_assign_distinct {A : Type} (ps acc : list (string * A)) :
  distinct_keys (map fst acc ++ map fst ps) = true ->
  fold_left (fun props member => assign (fst member) (snd member) props)
    ps acc = acc ++ ps.
Proof.
  revert acc. induction ps as [| [k x] ps IH]; intros acc Hd.
  - cbn. now rewrite app_nil_r.
  - cbn [fold_left fst snd].
    destruct (distinct_keys_app _ _ Hd) as [_ Hfresh].
    rewrite assign_fresh.
    + rewrite IH; [now rewrite <- app_assoc |].
      rewrite map_app. cbn [map fst]. now rewrite <- app_assoc.
    + apply lookup_None. apply Hfresh. cbn [map fst]. now left.
Qed.

(** Parsing writes the properties of an object with distinct keys as they
    stand. *)
Lemma own_members_distinct {A : Type} (ps : list (string * A)) :
  distinct_keys (map fst ps) = true -> own_members ps = ps.
Proof.
  intros Hd. unfold own_members. now rewrite fold_assign_distinct.
Qed.

(** ** Values that come back *)

Lemma comes_back_phases (j : json) (w : Value) :
  (forall k, JSON_parse JSON_REVIVER_FUNC k j = Return w) ->
  exists u, JSON_parse_text j = Return u
            /\ forall k, internalize JSON_REVIVER_FUNC k u = Return w.
Proof.
  intros Hw. unfold JSON_parse in Hw.
  destruct (JSON_parse_text j) as [u | e |] eqn:Hu.
  - exists u. split; [reflexivity | exact Hw].
  - specialize (Hw ""). discriminate.
  - specialize (Hw ""). discriminate.
Qed.

Lemma members_phases (props wprops : list (string * Value)) :
  members_come_back props wprops ->
  exists us : list (string * Value),
    traverse
      (fun member : string * json =>
         y <- JSON_parse_text (snd member) ;;
         Return (fst member, y))
      (stringify_members JSON_stringify props) = Return us
    /\ map fst us = map fst props
    /\ traverse
         (fun prop : string * Value =>
            y <- internalize JSON_REVIVER_FUNC (fst prop) (snd prop) ;;
            Return (fst prop, y)) us = Return wprops.
Proof.
  induction 1 as [| [k v] [k' w] props wprops [Hk (j & Hj & Hw)] _ IH].
  - exists []. repeat split.
  - cbn [fst snd] in Hk, Hj, Hw. subst k'.
    destruct (@comes_back_phases j w Hw) as (u & Hu & Hi).
    destruct IH as (us & Hus & Hkeys & Hws).
    exists ((k, u) :: us). cbn [stringify_members]. rewrite Hj.
    cbn [traverse fst snd map]. rewrite Hu. cbn [bind].
    rewrite Hus, Hi. cbn [bind]. rewrite Hws, Hkeys. repeat split.
Qed.

Lemma members_nil : members_come_back [] [].
Proof. constructor. Qed.

Lemma members_cons (k : string) (v w : Value)
  (props wprops : list (string * Value)) :
  comes_back v w -> members_come_back props wprops ->
  members_come_back ((k, v) :: props) ((k, w) :: wprops).
Proof. intros Hv Hrest. constructor; [split; [reflexivity | exact Hv] |].
       exact Hrest. Qed.

(** An object with distinct keys and without a [type] property is left
    alone by the reviver. *)
Lemma object_comes_back (props wprops : list (string * Value)) :
  members_come_back props wprops ->
  distinct_keys (map fst props) = true ->
  lookup "type" wprops = None ->
  comes_back (VObject props) (VObject wprops).
Proof.
  intros Hall Hd Hty.
  exists (JObject (stringify_members JSON_stringify props)).
  split; [reflexivity |]. intros k.
  destruct (members_phases Hall) as (us & Hus & Hkeys & Hws).
  unfold JSON_parse. cbn [JSON_parse_text]. rewrite Hus. cbn [bind].
  rewrite own_members_distinct by now rewrite Hkeys.
  cbn [internalize]. rewrite Hws. cbn [bind].
  unfold JSON_REVIVER_FUNC. now rewrite Hty.
Qed.

Lemma VString_comes_back (str : string) :
  comes_back (VString str) (VString str).
Proof. eexists. split; reflexivity. Qed.

Lemma VNumber_comes_back (n : Z) :
  exact_double n = true -> comes_back (VNumber n) (VNumber n).
Proof.
  intros Hn. eexists. split; [reflexivity |]. intros k.
  unfold JSON_parse. cbn [JSON_parse_text]. now rewrite Hn.
Qed.

Lemma VNull_comes_back : comes_back VNull VNull.
Proof. eexists. split; reflexivity. Qed.

(** A BN comes back as the string of its hexadecimal digits. *)
Lemma VBN_comes_back (n : BN) :
  comes_back (VBN n) (VString (BN_toString16 n)).
Proof. eexists. split; reflexivity. Qed.

Lemma VBuffer_comes_back (b : Buffer) : comes_back (VBuffer b) (VBuffer b).
Proof.
  eexists. split; [reflexivity |]. intros k. apply Buffer_round_trip.
Qed.

Create HintDb wire discriminated.
#[local] Hint Resolve members_nil members_cons VString_comes_back
  VNumber_comes_back VNull_comes_back VBN_comes_back VBuffer_comes_back
  : wire.

Lemma Signature_comes_back (sig : option Signature) :
  exact_v sig ->
  comes_back (Signature_toValue sig) (Signature_toValue sig).
Proof.
  destruct sig as [[r0 s0 v0] |]; [| intros _; apply VNull_comes_back].
  cbn [exact_v v]. intros Hv.
  apply object_comes_back; [| reflexivity | reflexivity].
  cbn [r s v]. auto with wire.
Qed.

(** A Lock instance comes back as a plain object. *)
Lemma VLock_comes_back (a e : BN) (h : Buffer) :
  comes_back (VLock a e h)
    (VObject [("amount", VString (BN_toString16 a));
              ("expiration", VString (BN_toString16 e));
              ("hashLock", VBuffer h)]).
Proof.
  assert (Hobj : comes_back
                   (VObject [("amount", VBN a); ("expiration", VBN e);
                             ("hashLock", VBuffer h)])
                   (VObject [("amount", VString (BN_toString16 a));
                             ("expiration", VString (BN_toString16 e));
                             ("hashLock", VBuffer h)])).
  { apply object_comes_back; [| reflexivity | reflexivity].
    auto with wire. }
  destruct Hobj as (j & Hj & Hw). exists j. split; [exact Hj | exact Hw].
Qed.

#[local] Hint Resolve Signature_comes_back VLock_comes_back : wire.

Lemma Signature_or_null_toValue (sig : option Signature) :
  Signature_or_null (Signature_toValue sig) = Return sig.
Proof. destruct sig as [[r0 s0 v0] |]; reflexivity. Qed.

Arguments Buffer_toJSON : simpl never.
Arguments BN_toString16 : simpl never.
Arguments TO_BN : simpl never.
Arguments Signature_toValue : simpl never.
Arguments Signature_or_null : simpl never.

(** Serialize, parse member by member, then run the constructor the
    [classType] selects. *)
Ltac decode_encoded :=
  match goal with
  | |- exists j, SERIALIZE ?msg = Some j /\ _ =>
      let w := fresh "w" in
      let Hb := fresh "Hb" in
      let j := fresh "j" in
      let Hj := fresh "Hj" in
      let Hw := fresh "Hw" in
      evar (w : list (string * Value));
      assert (Hb : comes_back (toValue msg) (VObject w))
        by (subst w;
            cbv [toValue MediatedTransfer.own_properties
                   LockedTransfer.own_properties
                   DirectTransfer.own_properties
                   SecretToProof.own_properties ProofMessage.own_properties
                   Proof.own_properties RequestSecret.own_properties
                   RevealSecret.own_properties Ack.own_properties
                   SignedMessage.own_properties Lock.toValue];
            cbn;
            eapply object_comes_back;
            [auto 20 with wire | reflexivity | reflexivity]);
      destruct Hb as (j & Hj & Hw); subst w;
      exists j; split; [exact Hj |];
      unfold DESERIALIZE_AND_DECODE_MESSAGE, DESERIALIZE;
      rewrite Hw; clear Hj Hw
  end.

Ltac run_constructor :=
  unfold lift, MediatedTransfer.new, LockedTransfer.new,
    LockedTransfer.construct, DirectTransfer.new, SecretToProof.new,
    ProofMessage.new, Proof.new, RequestSecret.new, RevealSecret.new,
    Lock.new, SignedMessage.new, get_BN, get_Buffer;
  repeat (cbn; rewrite ?Signature_or_null_toValue, ?BN_round_trip);
  reflexivity.

Lemma Proof_round_trip (m : Proof.t) :
  exact_v (SignedMessage.signature m) -> round_trips (MProof m).
Proof.
  destruct m as [[sig] n ta lr ca mh];
    intros Hv; change (exact_v sig) in Hv; unfold round_trips;
    decode_encoded; run_constructor.
Qed.

Lemma SignedMessage_round_trip (m : SignedMessage.t) :
  exact_v (SignedMessage.signature m) -> round_trips (MSignedMessage m).
Proof.
  destruct m as [sig];
    intros Hv; change (exact_v sig) in Hv; unfold round_trips;
    decode_encoded; run_constructor.
Qed.

Lemma ProofMessage_round_trip (m : ProofMessage.t) :
  exact_v (SignedMessage.signature m) -> round_trips (MProofMessage m).
Proof.
  destruct m as [[sig] n ta lr ca mh];
    intros Hv; change (exact_v sig) in Hv; unfold round_trips;
    decode_encoded; run_constructor.
Qed.

Lemma DirectTransfer_round_trip (m : DirectTransfer.t) :
  exact_v (SignedMessage.signature m) -> round_trips (MDirectTransfer m).
Proof.
  destruct m as [[[sig] n ta lr ca mh] i dst];
    intros Hv; change (exact_v sig) in Hv; unfold round_trips;
    decode_encoded; run_constructor.
Qed.

Lemma LockedTransfer_round_trip (m : LockedTransfer.t) :
  exact_v (SignedMessage.signature m) -> round_trips (MLockedTransfer m).
Proof.
  destruct m as [[[[sig] n ta lr ca mh] i dst] [[a e h] |]];
    intros Hv; change (exact_v sig) in Hv; unfold round_trips;
    decode_encoded; run_constructor.
Qed.

Lemma MediatedTransfer_round_trip (m : MediatedTransfer.t) :
  exact_v (SignedMessage.signature m) -> round_trips (MMediatedTransfer m).
Proof.
  destruct m as [[[[[sig] n ta lr ca mh] i dst] [[a e h] |]] tg ini];
    intros Hv; change (exact_v sig) in Hv; unfold round_trips;
    decode_encoded; run_constructor.
Qed.

Lemma RequestSecret_round_trip (m : RequestSecret.t) :
  exact_v (SignedMessage.signature m) -> round_trips (MRequestSecret m).
Proof.
  destruct m as [[sig] i dst h a];
    intros Hv; change (exact_v sig) in Hv; unfold round_trips;
    decode_encoded; run_constructor.
Qed.

Lemma RevealSecret_round_trip (m : RevealSecret.t) :
  exact_v (SignedMessage.signature m) -> round_trips (MRevealSecret m).
Proof.
  destruct m as [[sig] sec dst];
    intros Hv; change (exact_v sig) in Hv; unfold round_trips;
    decode_encoded; run_constructor.
Qed.

Lemma SecretToProof_round_trip (m : SecretToProof.t) :
  exact_v (SignedMessage.signature m) -> round_trips (MSecretToProof m).
Proof.
  destruct m as [[[sig] n ta lr ca mh] i dst sec];
    intros Hv; change (exact_v sig) in Hv; unfold round_trips;
    decode_encoded; run_constructor.
Qed.

(** Every message of a class that extends SignedMessage is decoded from its
    encoding with the same class and the same property values, when the
    [v] of its signature is a number JSON holds without loss. *)
Theorem SignedMessage_classes_round_trip (msg : Message) :
  extends_SignedMessage msg = true ->
  exact_v (signature_property msg) ->
  round_trips msg.
Proof.
  destruct msg; cbn [extends_SignedMessage signature_property];
    intros E Hv; try discriminate.
  - now apply SignedMessage_round_trip.
  - now apply Proof_round_trip.
  - now apply ProofMessage_round_trip.
  - now apply DirectTransfer_round_trip.
  - now apply LockedTransfer_round_trip.
  - now apply MediatedTransfer_round_trip.
  - now apply RequestSecret_round_trip.
  - now apply RevealSecret_round_trip.
  - now apply SecretToProof_round_trip.
Qed.

(** C7 at [Ack].  An Ack has no [classType] property: its encoding is
    written, and decoding it throws instead of giving the Ack back. *)
Theorem Ack_does_not_round_trip (m : Ack.t) :
  exists j, SERIALIZE (MAck m) = Some j
            /\ DESERIALIZE_AND_DECODE_MESSAGE j =
               Throw (JsError
                        "Invalid Message: not a recoginized GOT message type").
Proof.
  destruct m as [dst mh i]. decode_encoded. reflexivity.
Qed.

(** ** The sender accessor *)

(** C9 on the code.  Without a signature, reading [from] ends in a throw of
    [Error('no signature to recover address from')] out of the getter ("FIXME
    - getter should not throw"), not in a returned failure value. *)
Theorem from_throws_without_signature `{Primitives} {M : Type} `{Signed M}
  (m : M) :
  signature_of m = None ->
  SignedMessage.from m =
  Throw (JsError "no signature to recover address from").
Proof. intros Hsig. unfold SignedMessage.from. now rewrite Hsig. Qed.

(** With a signature, [from] is the last 20 bytes of the hash of the
    recovered public key, whenever the message hash and the recovery
    succeed. *)
Lemma from_recovers_address `{Primitives} {M : Type} `{Signed M} (m : M)
  (sig : Signature) (hash pk : Buffer) :
  signature_of m = Some sig ->
  getHash m = Return hash ->
  ecrecover hash (v sig) (r sig) (s sig) = Return pk ->
  List.length pk = 64 ->
  20 <= List.length (sha3 pk) ->
  SignedMessage.from m = Return (slice_last 20 (sha3 pk))
  /\ List.length (slice_last 20 (sha3 pk)) = 20.
Proof.
  intros Hsig Hhash Hpk Hlen Hsha. split.
  - unfold SignedMessage.from, SignedMessage._recoverAddress, pubToAddress.
    rewrite Hsig, Hhash. cbn [bind]. rewrite Hpk. cbn [bind].
    now rewrite Hlen.
  - unfold slice_last. rewrite length_skipn. lia.
Qed.

Lemma from_throws_without_signature_witness :
  signature_of (Signed := @RequestSecret.signed example_primitives)
    example_unsigned = None
  /\ SignedMessage.from (H := example_primitives)
       (H0 := @RequestSecret.signed example_primitives) example_unsigned =
     Throw (JsError "no signature to recover address from").
Proof.
  split; [reflexivity |].
  exact (@from_throws_without_signature example_primitives RequestSecret.t
           (@RequestSecret.signed example_primitives) example_unsigned
           eq_refl).
Defined.

(** ** LockedTransfer without a lock *)

(** C10. When [options.lock] is absent or falsy, the constructor stores the
    default Lock in [options], not in the new object: the object's [lock]
    stays undefined and its [getMessageHash] throws a TypeError. *)
Theorem LockedTransfer_without_lock `{Primitives} (options l options' : Value)
  (this : LockedTransfer.t) :
  get options "lock" = Return l ->
  truthy l = false ->
  LockedTransfer.construct options = Return (this, options') ->
  LockedTransfer.new options = Return this
  /\ LockedTransfer.lock this = None
  /\ LockedTransfer.getMessageHash this =
     Throw (TypeError "Cannot read properties of undefined")
  /\ get options' "lock" = Return (VLock 0%N 0%N EMPTY_32BYTE_BUFFER).
Proof.
  intros Hget Hfalsy Hnew.
  assert (Hthis : LockedTransfer.lock this = None
                  /\ get options' "lock" =
                     Return (VLock 0%N 0%N EMPTY_32BYTE_BUFFER)).
  { unfold LockedTransfer.construct in Hnew.
    destruct (DirectTransfer.new options) as [base | e |];
      cbn [bind] in Hnew; try discriminate.
    rewrite Hget in Hnew. cbn [bind] in Hnew. rewrite Hfalsy in Hnew.
    cbn [negb] in Hnew.
    change (Lock.new (VObject [])) with
      (Return {| Lock.amount := 0%N; Lock.expiration := 0%N;
                 Lock.hashLock := EMPTY_32BYTE_BUFFER |}) in Hnew.
    cbn [bind Lock.toValue Lock.amount Lock.expiration Lock.hashLock]
      in Hnew.
    destruct options; cbn [set bind] in Hnew; try discriminate.
    injection Hnew as <- <-. split; [reflexivity |].
    cbn [get]. now rewrite lookup_assign_same. }
  destruct Hthis as [Hlock Hopt].
  split; [| split; [exact Hlock | split; [| exact Hopt]]].
  - unfold LockedTransfer.new. now rewrite Hnew.
  - unfold LockedTransfer.getMessageHash, LockedTransfer.lock_getMessageHash.
    now rewrite Hlock.
Qed.

Lemma LockedTransfer_without_lock_witness :
  exists (this : LockedTransfer.t) (options' : Value),
    LockedTransfer.construct (VObject []) = Return (this, options')
    /\ LockedTransfer.lock this = None
    /\ LockedTransfer.getMessageHash (H := example_primitives) this =
       Throw (TypeError "Cannot read properties of undefined").
Proof.
  eexists. eexists. split; [reflexivity |].
  destruct (LockedTransfer_without_lock (H := example_primitives)
              (VObject []) (l := VUndefined)
              eq_refl eq_refl eq_refl) as (_ & Hlock & Hhash & _).
  split; [exact Hlock | exact Hhash].
Defined.


(** ** The end-to-end scenario of the specification *)

Example end_to_end_scenario :
  machina.state example_run = Initiator.completedTransfer
  /\ map (fun e => match e with
                   | machina.Emitted name _ => name
                   | machina.Transitioned _ _ => "transition"
                   end) (machina.effects example_run) =
     ["GOT.sendMediatedTransfer"; "transition";
      "GOT.sendRevealSecret"; "transition";
      "GOT.sendSecretToProof"; "transition"]
  /\ revealTo (machina.client example_run) = Some (repeat xcc 20).
Proof. vm_compute. repeat split. Qed.

(** * More properties of the code *)

(** ** The steps of the machines *)

Lemma emitted_names_app {State : Type} (a b : list (machina.Effect State)) :
  emitted_names (a ++ b) = emitted_names a ++ emitted_names b.
Proof. unfold emitted_names. apply flat_map_app. Qed.

(** Whatever the input, the Initiator either leaves client, state and
    effects as they are or takes one of its three steps. *)
Lemma Initiator_handle_cases `{Primitives} (input : Input)
  (m : machina.Machine Initiator.State) :
  fst (Initiator.handle input m) = m
  \/ Initiator_step m (fst (Initiator.handle input m)).
Proof.
  destruct m as [c st es]. unfold Initiator.handle. cbn [machina.state].
  destruct st; try (left; reflexivity).
  - right. apply Initiator_sends.
  - destruct input; try (left; reflexivity).
    unfold Initiator.awaitRequestSecret_receiveRequestSecret, and_then,
      lock_of. run_handler.
    repeat case_completion;
      solve [ left; reflexivity
            | right; apply Initiator_reveals
            | cbn in *; discriminate ].
  - destruct input; try (left; reflexivity).
    unfold Initiator.awaitRevealSecret_receiveRevealSecret, and_then,
      lock_of. run_handler.
    repeat case_completion;
      solve [ left; reflexivity
            | right; apply Initiator_completes
            | cbn in *; discriminate ].
Qed.

(** The same for the Target and its five steps; the step that stores a
    secret is taken only with a secret that hashes to the lock's hashLock
    and with the recovered sender of the transfer. *)
Lemma Target_handle_cases `{Primitives} (input : Input)
  (m : machina.Machine Target.State) :
  fst (Target.handle input m) = m
  \/ Target_step m (fst (Target.handle input m)).
Proof.
  destruct m as [c st es]. unfold Target.handle. cbn [machina.state].
  destruct st; try (left; reflexivity).
  - unfold Target.init_any, expired, lock_of. run_handler.
    repeat case_completion;
      solve [ left; reflexivity
            | right; apply Target_requests
            | right; apply Target_expires; left; reflexivity
            | cbn in *; discriminate ].
  - destruct input; try (left; reflexivity).
    + unfold Target.awaitRevealSecret_receiveRevealSecret, and_then,
        lock_of. run_handler.
      destruct (LockedTransfer.lock c) as [l |] eqn:Hl; cbn [bind];
        [| left; reflexivity].
      destruct (same (Lock.hashLock l) (sha3 (RevealSecret.secret secretReveal)))
        eqn:Hh; [| left; reflexivity].
      destruct (SignedMessage.from secretReveal) as [sender | e |];
        cbn [bind]; try (left; reflexivity).
      destruct (same (MediatedTransfer.initiator c) sender);
        [| left; reflexivity].
      destruct (SignedMessage.from (transfer c)) as [back | e |] eqn:Hb;
        try (left; reflexivity).
      right. apply same_iff in Hh.
      exact (Target_reveals c es (RevealSecret.secret secretReveal) Hl Hh Hb).
    + unfold Target.awaitRevealSecret_handleBlock, expired, lock_of.
      run_handler.
      repeat case_completion;
        solve [ left; reflexivity
              | right; apply Target_expires; right; reflexivity
              | cbn in *; discriminate ].
  - destruct input; try (left; reflexivity).
    + unfold Target.awaitSecretToProof_receiveSecretToProof. run_handler.
      repeat case_completion;
        solve [ left; reflexivity
              | right; apply Target_completes; left; reflexivity
              | cbn in *; discriminate ].
    + unfold Target.awaitSecretToProof_handleBlock, expired, lock_of.
      run_handler.
      repeat case_completion;
        solve [ left; reflexivity
              | right; apply Target_completes; right; reflexivity
              | cbn in *; discriminate ].
Qed.

(** ** MessageState: what one message and what a run of messages does *)

Lemma applyMessages_stateMachine {State : Type} (inputs : list Input)
  (ms : MessageState.t State) :
  MessageState.stateMachine (MessageState.applyMessages ms inputs) =
  MessageState.stateMachine ms.
Proof.
  revert ms. induction inputs as [| input inputs IH]; intros ms;
    [reflexivity |].
  unfold MessageState.applyMessages. cbn [fold_left].
  change (fold_left _ inputs ?x) with (MessageState.applyMessages x inputs).
  now rewrite IH.
Qed.

Lemma applyMessages_snoc {State : Type} (inputs : list Input)
  (input : Input) (ms : MessageState.t State) :
  MessageState.applyMessages ms (inputs ++ [input]) =
  fst (MessageState.applyMessage (MessageState.applyMessages ms inputs)
         input).
Proof. unfold MessageState.applyMessages. now rewrite fold_left_app. Qed.

Lemma Initiator_applyMessage_cases `{Primitives} (c : TransferState)
  (inputs : list Input) (input : Input) :
  MessageState.state
    (fst (MessageState.applyMessage
            (MessageState.applyMessages (Initiator_MessageState c) inputs)
            input)) =
  MessageState.state
    (MessageState.applyMessages (Initiator_MessageState c) inputs)
  \/ Initiator_step
       (MessageState.state
          (MessageState.applyMessages (Initiator_MessageState c) inputs))
       (MessageState.state
          (fst (MessageState.applyMessage
                  (MessageState.applyMessages (Initiator_MessageState c)
                     inputs) input))).
Proof.
  cbn [MessageState.applyMessage fst MessageState.state].
  rewrite applyMessages_stateMachine. apply Initiator_handle_cases.
Qed.

Lemma Target_applyMessage_cases `{Primitives} (c : TransferState)
  (inputs : list Input) (input : Input) :
  MessageState.state
    (fst (MessageState.applyMessage
            (MessageState.applyMessages (Target_MessageState c) inputs)
            input)) =
  MessageState.state
    (MessageState.applyMessages (Target_MessageState c) inputs)
  \/ Target_step
       (MessageState.state
          (MessageState.applyMessages (Target_MessageState c) inputs))
       (MessageState.state
          (fst (MessageState.applyMessage
                  (MessageState.applyMessages (Target_MessageState c)
                     inputs) input))).
Proof.
  cbn [MessageState.applyMessage fst MessageState.state].
  rewrite applyMessages_stateMachine. apply Target_handle_cases.
Qed.

(** X1.  After any run of messages, one more message to an Initiator either
    changes nothing (client, state and effects as they are) or takes one of
    the three steps of the Initiator. *)
Theorem Initiator_applyMessage_step `{Primitives} (c : TransferState)
  (inputs : list Input) (input : Input) :
  let ms := MessageState.applyMessages (Initiator_MessageState c) inputs in
  let ms' := fst (MessageState.applyMessage ms input) in
  MessageState.state ms' = MessageState.state ms
  \/ Initiator_step (MessageState.state ms) (MessageState.state ms').
Proof.
  cbv zeta. apply Initiator_applyMessage_cases.
Qed.

(** X2.  After any run of messages, one more message to a Target either
    changes nothing or takes exactly one of its steps: request the secret,
    expire silently, store the revealed secret, or complete.  The step that
    stores a secret is taken only for a secret that hashes to the hashLock
    of the lock. *)
Theorem Target_applyMessage_step `{Primitives} (c : TransferState)
  (inputs : list Input) (input : Input) :
  let ms := MessageState.applyMessages (Target_MessageState c) inputs in
  let ms' := fst (MessageState.applyMessage ms input) in
  MessageState.state ms' = MessageState.state ms
  \/ Target_step (MessageState.state ms) (MessageState.state ms').
Proof.
  cbv zeta. apply Target_applyMessage_cases.
Qed.

Lemma Initiator_step_history (m m' : machina.Machine Initiator.State) :
  Initiator_step m m' ->
  Initiator_history (machina.state m) =
    Some (emitted_names (machina.effects m)) ->
  Initiator_history (machina.state m') =
    Some (emitted_names (machina.effects m')).
Proof.
  intros Hstep. destruct Hstep as [c es | c es | c es];
    cbn [machina.state machina.effects Initiator_history];
    intros Hinv; injection Hinv as Hinv;
    rewrite !emitted_names_app, <- Hinv; reflexivity.
Qed.

Lemma Initiator_run_names `{Primitives} (c : TransferState)
  (inputs : list Input) :
  Initiator_history
    (machina.state
       (MessageState.state
          (MessageState.applyMessages (Initiator_MessageState c) inputs))) =
  Some (emitted_names
          (machina.effects
             (MessageState.state
                (MessageState.applyMessages (Initiator_MessageState c)
                   inputs)))).
Proof.
  induction inputs as [| input inputs IH] using rev_ind; [reflexivity |].
  rewrite applyMessages_snoc.
  destruct (Initiator_applyMessage_cases c inputs input) as [E | Hstep].
  - rewrite E. exact IH.
  - exact (Initiator_step_history Hstep IH).
Qed.

(** X3.  Over any run of messages from a fresh client, the Initiator has
    emitted exactly the events its state stands for, in this order:
    sendMediatedTransfer, sendRevealSecret, sendSecretToProof. So it never
    reveals before it has sent the transfer, never emits an event twice, and
    never reaches [failedTransfer] or [expiredTransfer]. *)
Theorem Initiator_run_history `{Primitives} (c : TransferState)
  (inputs : list Input) :
  let m := MessageState.state
             (MessageState.applyMessages (Initiator_MessageState c) inputs) in
  Initiator_history (machina.state m) =
    Some (emitted_names (machina.effects m))
  /\ machina.state m <> Initiator.failedTransfer
  /\ machina.state m <> Initiator.expiredTransfer.
Proof.
  cbv zeta. pose proof (Initiator_run_names c inputs) as Hinv.
  split; [exact Hinv |].
  split; intros E; rewrite E in Hinv; discriminate Hinv.
Qed.

Lemma Target_step_history `{Primitives} (m m' : machina.Machine Target.State) :
  Target_step m m' ->
  Target_history (machina.state m) (emitted_names (machina.effects m)) ->
  Target_history (machina.state m') (emitted_names (machina.effects m')).
Proof.
  intros Hstep.
  destruct Hstep as [c es | c st es [-> | ->] | c es l sec back Hl Hh Hb
                    | c es name [-> | ->]];
    cbn [machina.state machina.effects Target_history];
    intros Hinv; rewrite !emitted_names_app, Hinv; cbn; auto.
Qed.

(** X4.  Over any run of messages from a fresh client, the Target has
    emitted exactly the events its state stands for: sendRequestSecret
    before sendRevealSecret before one of receiveSecretToProof and
    closeChannel; an expired Target has emitted at most sendRequestSecret. *)
Theorem Target_run_history `{Primitives} (c : TransferState)
  (inputs : list Input) :
  let m := MessageState.state
             (MessageState.applyMessages (Target_MessageState c) inputs) in
  Target_history (machina.state m) (emitted_names (machina.effects m)).
Proof.
  cbv zeta.
  induction inputs as [| input inputs IH] using rev_ind; [reflexivity |].
  rewrite applyMessages_snoc.
  destruct (Target_applyMessage_cases c inputs input) as [E | Hstep].
  - rewrite E. exact IH.
  - exact (Target_step_history Hstep IH).
Qed.

Lemma Target_step_secret `{Primitives} (m m' : machina.Machine Target.State) :
  Target_step m m' ->
  Target_secret_opens_lock (machina.client m) ->
  Target_secret_opens_lock (machina.client m').
Proof.
  intros Hstep.
  destruct Hstep as [c es | c st es _ | c es l sec back Hl Hh Hb
                    | c es name _];
    cbn [machina.client]; intros Hinv; try exact Hinv.
  unfold Target_secret_opens_lock, assign_secret_revealTo.
  cbn [secret revealTo transfer]. rewrite Hl. cbn [option_map].
  split; [now rewrite Hh |]. exists back. split; [reflexivity | exact Hb].
Qed.

(** X5.  Over any run of messages, a Target that starts without a secret
    only ever holds a secret that hashes to the hashLock of its lock,
    together with [revealTo], the recovered sender of the transfer. *)
Theorem Target_run_secret `{Primitives} (c : TransferState)
  (inputs : list Input) :
  secret c = None ->
  Target_secret_opens_lock
    (machina.client
       (MessageState.state
          (MessageState.applyMessages (Target_MessageState c) inputs))).
Proof.
  intros Hnone.
  induction inputs as [| input inputs IH] using rev_ind.
  - cbn. unfold Target_secret_opens_lock. now rewrite Hnone.
  - rewrite applyMessages_snoc.
    destruct (Target_applyMessage_cases c inputs input) as [E | Hstep].
    + rewrite E. exact IH.
    + exact (Target_step_secret Hstep IH).
Qed.

Lemma Target_run_secret_witness :
  secret example_state = None
  /\ Target_secret_opens_lock (H := example_primitives)
       (machina.client
          (MessageState.state
             (MessageState.applyMessages
                (Target_MessageState (H := example_primitives) example_state)
                [handleBlock 900%N;
                 receiveRevealSecret
                   {| RevealSecret.super :=
                        {| SignedMessage.signature :=
                             example_signature (repeat xdd 20) |};
                      RevealSecret.secret := example_secret;
                      RevealSecret.to := repeat xbb 20 |}]))).
Proof.
  split; [reflexivity |].
  apply (Target_run_secret (H := example_primitives) example_state).
  reflexivity.
Defined.

Lemma Initiator_step_transfer (m m' : machina.Machine Initiator.State) :
  Initiator_step m m' ->
  transfer (machina.client m') = transfer (machina.client m)
  /\ secret (machina.client m') = secret (machina.client m).
Proof. intros Hstep. destruct Hstep; split; reflexivity. Qed.

Lemma Target_step_transfer `{Primitives} (m m' : machina.Machine Target.State) :
  Target_step m m' ->
  transfer (machina.client m') = transfer (machina.client m).
Proof. intros Hstep. destruct Hstep; reflexivity. Qed.

(** X6.  No run of messages changes the transfer a machine was started with:
    handlers assign [revealTo] and [secret] and nothing else, and the
    Initiator never assigns [secret]. *)
Theorem runs_keep_the_transfer `{Primitives} (c : TransferState)
  (inputs : list Input) :
  (let m := MessageState.state
              (MessageState.applyMessages (Initiator_MessageState c)
                 inputs) in
   transfer (machina.client m) = transfer c
   /\ secret (machina.client m) = secret c)
  /\ (let m := MessageState.state
                 (MessageState.applyMessages (Target_MessageState c)
                    inputs) in
      transfer (machina.client m) = transfer c).
Proof.
  cbv zeta. split.
  - induction inputs as [| input inputs IH] using rev_ind;
      [split; reflexivity |].
    rewrite applyMessages_snoc.
    destruct (Initiator_applyMessage_cases c inputs input) as [E | Hstep].
    + rewrite E. exact IH.
    + destruct (Initiator_step_transfer Hstep) as [Ht Hs].
      rewrite Ht, Hs. exact IH.
  - induction inputs as [| input inputs IH] using rev_ind; [reflexivity |].
    rewrite applyMessages_snoc.
    destruct (Target_applyMessage_cases c inputs input) as [E | Hstep].
    + rewrite E. exact IH.
    + rewrite (Target_step_transfer Hstep). exact IH.
Qed.

(** ** Errors and repeated inputs *)

Ltac unfold_handlers :=
  unfold Initiator.handle, Target.handle, Initiator.init_any,
    Initiator.awaitRequestSecret_receiveRequestSecret,
    Initiator.awaitRevealSecret_receiveRevealSecret, Target.init_any,
    Target.awaitRevealSecret_receiveRevealSecret,
    Target.awaitRevealSecret_handleBlock,
    Target.awaitSecretToProof_receiveSecretToProof,
    Target.awaitSecretToProof_handleBlock, and_then, expired, lock_of.

Ltac crunch :=
  repeat first
    [ progress
        (run_handler;
         cbn [fst snd bind machina.client machina.state machina.effects
              Target.State_eqb Initiator.State_eqb Target.currentBlock_of
              transfer secret revealTo assign_secret_revealTo
              assign_revealTo])
    | case_completion ].

(** X7.  A handler that throws has done nothing: whenever [handle] ends in a
    throw, client, state and effects are exactly as before the call. *)
Theorem handle_throw_changes_nothing `{Primitives} (input : Input) :
  (forall m : machina.Machine Initiator.State,
     snd (Initiator.handle input m) = Return tt
     \/ fst (Initiator.handle input m) = m)
  /\ (forall m : machina.Machine Target.State,
        snd (Target.handle input m) = Return tt
        \/ fst (Target.handle input m) = m).
Proof.
  split; intros [c st es]; unfold_handlers; cbn [machina.state];
    destruct st, input; crunch;
    solve [left; reflexivity | right; reflexivity].
Qed.

Ltac contradictory_cases :=
  cbn in *; try congruence;
  repeat match goal with
         | E : context [LockedTransfer.lock ?c] |- _ =>
             destruct (LockedTransfer.lock c)
         end;
  cbn in *; congruence.

(** X8.  A duplicate is harmless. Feeding a Target the same input a second
    time changes nothing more than the first time did, in every state; the
    same holds for an Initiator once it has left [init]. *)
Theorem duplicate_input_changes_nothing `{Primitives} (input : Input) :
  (forall m : machina.Machine Target.State,
     fst (Target.handle input (fst (Target.handle input m))) =
     fst (Target.handle input m))
  /\ (forall (c : TransferState) (st : Initiator.State)
        (es : list (machina.Effect Initiator.State)),
        let m := {| machina.client := c; machina.state := st;
                    machina.effects := es |} in
        st = Initiator.init
        \/ fst (Initiator.handle input (fst (Initiator.handle input m))) =
           fst (Initiator.handle input m)).
Proof.
  split.
  - intros [c st es]. unfold_handlers. cbn [machina.state].
    destruct st, input; crunch; try reflexivity; contradictory_cases.
  - intros c st es m. subst m. unfold_handlers. cbn [machina.state].
    destruct st; [left; reflexivity | right ..];
      destruct input; crunch; try reflexivity; contradictory_cases.
Qed.

(** ** Target in [awaitRevealSecret] *)

(** X9.  On a RevealSecret whose secret hashes to the lock's hashLock and
    whose sender is the initiator, the Target stores the secret and
    [revealTo = state.from], emits [GOT.sendRevealSecret] and moves to
    [awaitSecretToProof]; when the sender of its own transfer cannot be
    recovered it throws instead and nothing changes; on any other
    RevealSecret nothing changes. On a block tick it moves to
    [expiredTransfer] without emitting when the lock expires within the
    reveal timeout, and does nothing otherwise. *)
Theorem Target_awaitRevealSecret `{Primitives} (c : TransferState)
  (es : list (machina.Effect Target.State)) :
  let m := {| machina.client := c;
              machina.state := Target.awaitRevealSecret;
              machina.effects := es |} in
  (forall rv : RevealSecret.t,
     let out := Target.handle (receiveRevealSecret rv) m in
     (Target_RevealSecret_matches c rv ->
      match SignedMessage.from (transfer c) with
      | Return back =>
          out =
          ({| machina.client :=
                {| transfer := transfer c;
                   secret := Some (RevealSecret.secret rv);
                   revealTo := Some back |};
              machina.state := Target.awaitSecretToProof;
              machina.effects :=
                (es ++ [machina.Emitted "GOT.sendRevealSecret"
                          {| transfer := transfer c;
                             secret := Some (RevealSecret.secret rv);
                             revealTo := Some back |}])
                ++ [machina.Transitioned Target.awaitRevealSecret
                      Target.awaitSecretToProof] |}, Return tt)
      | Throw e => out = (m, Throw e)
      | Unmodelled => out = (m, Unmodelled)
      end)
     /\ (~ Target_RevealSecret_matches c rv -> fst out = m))
  /\ (forall (l : Lock.t) (currentBlock : BN),
        LockedTransfer.lock c = Some l ->
        Target.handle (handleBlock currentBlock) m =
        if (Lock.expiration l <=? currentBlock + REVEAL_TIMEOUT)%N
        then ({| machina.client := c;
                 machina.state := Target.expiredTransfer;
                 machina.effects :=
                   es ++ [machina.Transitioned Target.awaitRevealSecret
                            Target.expiredTransfer] |}, Return tt)
        else (m, Return tt)).
Proof.
  intros m. split.
  - intros rv out. subst out m. unfold Target.handle. cbn [machina.state].
    unfold Target.awaitRevealSecret_receiveRevealSecret, and_then, lock_of.
    run_handler. split.
    + intros (Hh & Hs).
      destruct (LockedTransfer.lock c) as [l |]; [| discriminate].
      cbn [option_map] in Hh. injection Hh as Hh.
      cbn [bind]. rewrite Hh, same_refl, Hs. cbn [bind].
      rewrite same_refl.
      destruct (SignedMessage.from (transfer c)); reflexivity.
    + intros Hn.
      destruct (LockedTransfer.lock c) as [l |] eqn:Hl; cbn [bind];
        [| reflexivity].
      destruct (same (Lock.hashLock l) (sha3 (RevealSecret.secret rv)))
        eqn:E1; [| reflexivity].
      destruct (SignedMessage.from rv) as [sender | e |] eqn:Hs;
        cbn [bind]; try reflexivity.
      destruct (same (MediatedTransfer.initiator c) sender) eqn:E2;
        [| reflexivity].
      exfalso. apply Hn. apply same_iff in E1, E2.
      unfold Target_RevealSecret_matches. rewrite Hl. cbn [option_map].
      split; congruence.
  - intros l currentBlock Hl. subst m. unfold Target.handle.
    cbn [machina.state].
    unfold Target.awaitRevealSecret_handleBlock, expired, lock_of.
    run_handler. rewrite Hl. cbn [bind].
    destruct (Lock.expiration l <=? currentBlock + REVEAL_TIMEOUT)%N;
      reflexivity.
Qed.

(** ** First and last messages *)

Lemma Initiator_step_leaves_init (m m' : machina.Machine Initiator.State) :
  Initiator_step m m' -> machina.state m' <> Initiator.init.
Proof. intros Hstep. destruct Hstep; discriminate. Qed.

(** X10.  The first message to a fresh Initiator, whatever it is, makes it
    emit [GOT.sendMediatedTransfer] and leave [init] for good: after any
    non-empty run the state is not [init] and the first emitted event is
    [GOT.sendMediatedTransfer]. *)
Theorem Initiator_first_message `{Primitives} (c : TransferState)
  (input : Input) (inputs : list Input) :
  let m := MessageState.state
             (MessageState.applyMessages (Initiator_MessageState c)
                (input :: inputs)) in
  machina.state m <> Initiator.init
  /\ exists rest : list string,
       emitted_names (machina.effects m) =
       "GOT.sendMediatedTransfer" :: rest.
Proof.
  cbv zeta.
  assert (Hstate : machina.state
                     (MessageState.state
                        (MessageState.applyMessages
                           (Initiator_MessageState c) (input :: inputs))) <>
                   Initiator.init).
  { induction inputs as [| x inputs IH] using rev_ind; [discriminate |].
    change (input :: inputs ++ [x]) with ((input :: inputs) ++ [x]).
    rewrite applyMessages_snoc.
    destruct (Initiator_applyMessage_cases c (input :: inputs) x)
      as [E | Hstep].
    - rewrite E. exact IH.
    - exact (Initiator_step_leaves_init Hstep). }
  split; [exact Hstate |].
  pose proof (Initiator_run_names c (input :: inputs)) as Hnames.
  set (st := machina.state
               (MessageState.state
                  (MessageState.applyMessages (Initiator_MessageState c)
                     (input :: inputs)))) in *.
  clearbody st.
  destruct st; cbn [Initiator_history] in Hnames;
    try discriminate Hnames;
    try (exfalso; apply Hstate; reflexivity);
    injection Hnames as Hnames; eexists; symmetry; exact Hnames.
Qed.

Lemma settled_run {State : Type} (handle : Input -> machina.Fsm State unit)
  (m : machina.Machine State) (inputs : list Input) :
  (forall input, fst (handle input m) = m) ->
  MessageState.applyMessages
    {| MessageState.state := m; MessageState.stateMachine := handle |}
    inputs =
  {| MessageState.state := m; MessageState.stateMachine := handle |}.
Proof.
  intros Hquiet. induction inputs as [| input inputs IH]; [reflexivity |].
  unfold MessageState.applyMessages in *. cbn [fold_left].
  unfold MessageState.applyMessage at 2.
  cbn [MessageState.state MessageState.stateMachine].
  rewrite Hquiet. cbn [fst]. exact IH.
Qed.

(** X11.  The last states accept nothing: in [completedTransfer],
    [failedTransfer] and [expiredTransfer] no run of messages changes the
    client, the state or the effects of either machine. *)
Theorem terminal_states_accept_nothing `{Primitives} (c : TransferState)
  (inputs : list Input) :
  (forall (st : Initiator.State)
          (es : list (machina.Effect Initiator.State)),
     st = Initiator.completedTransfer \/ st = Initiator.failedTransfer
     \/ st = Initiator.expiredTransfer ->
     let ms := {| MessageState.state :=
                    {| machina.client := c; machina.state := st;
                       machina.effects := es |};
                  MessageState.stateMachine := Initiator.handle |} in
     MessageState.applyMessages ms inputs = ms)
  /\ (forall (st : Target.State)
             (es : list (machina.Effect Target.State)),
        st = Target.completedTransfer \/ st = Target.expiredTransfer ->
        let ms := {| MessageState.state :=
                       {| machina.client := c; machina.state := st;
                          machina.effects := es |};
                     MessageState.stateMachine := Target.handle |} in
        MessageState.applyMessages ms inputs = ms).
Proof.
  split; intros st es Hst ms; subst ms; apply settled_run; intros input.
  - destruct Hst as [-> | [-> | ->]]; reflexivity.
  - destruct Hst as [-> | ->]; reflexivity.
Qed.

(** ** Packing integers *)

Lemma Return_inj {A : Type} (a b : A) : Return a = Return b -> a = b.
Proof. intros E. now injection E. Qed.

Lemma size_le_256 (n : BN) : (N.size n <=? 256)%N = true <-> fits_uint256 n.
Proof.
  unfold fits_uint256. rewrite N.leb_le.
  destruct (N.eq_dec n 0) as [-> | Hn]; [cbn; split; [reflexivity | lia] |].
  rewrite N.size_log2 by exact Hn.
  rewrite (N.log2_lt_pow2 n 256) by lia. lia.
Qed.

Lemma pack_uint256_fits (n : BN) :
  fits_uint256 n -> pack_one (uint256 n) = Return (N_to_be 32 n).
Proof.
  intros Hn. cbn [pack_one]. apply size_le_256 in Hn. now rewrite Hn.
Qed.

Lemma pack_uint256_overflow (n : BN) :
  ~ fits_uint256 n ->
  pack_one (uint256 n) = Throw (uint_exceeds_width n).
Proof.
  intros Hn. cbn [pack_one].
  destruct (N.size n <=? 256)%N eqn:E; [| reflexivity].
  apply size_le_256 in E. contradiction.
Qed.

Lemma byte_of_N_mod (a b : N) :
  byte_of_N a = byte_of_N b -> (a mod 256 = b mod 256)%N.
Proof.
  unfold byte_of_N. intros E.
  assert (Ha : (a mod 256 < 256)%N) by (apply N.mod_lt; lia).
  assert (Hb : (b mod 256 < 256)%N) by (apply N.mod_lt; lia).
  destruct (Byte.of_N (a mod 256)) as [x |] eqn:Ex.
  2: { apply Byte.of_N_None_iff in Ex. lia. }
  destruct (Byte.of_N (b mod 256)) as [y |] eqn:Ey.
  2: { apply Byte.of_N_None_iff in Ey. lia. }
  apply Byte.to_of_N in Ex, Ey. congruence.
Qed.

Lemma N_to_le_inj (len : nat) (a b : N) :
  (a < 256 ^ N.of_nat len)%N -> (b < 256 ^ N.of_nat len)%N ->
  N_to_le len a = N_to_le len b -> a = b.
Proof.
  revert a b. induction len as [| k IH]; intros a b Ha Hb E.
  - cbn in Ha, Hb. lia.
  - cbn [N_to_le] in E. injection E as E0 E1.
    apply byte_of_N_mod in E0.
    rewrite Nat2N.inj_succ, N.pow_succ_r' in Ha, Hb.
    assert (Hq : (a / 256 = b / 256)%N).
    { apply IH; [| | exact E1];
        apply N.Div0.div_lt_upper_bound; lia. }
    rewrite (N.div_mod a 256), (N.div_mod b 256) by lia.
    now rewrite E0, Hq.
Qed.

(** Two integers that fit 256 bits and have the same 32 bytes are the same
    integer. *)
Lemma N_to_be_32_inj (a b : BN) :
  fits_uint256 a -> fits_uint256 b -> N_to_be 32 a = N_to_be 32 b -> a = b.
Proof.
  unfold fits_uint256, N_to_be. intros Ha Hb E.
  apply (f_equal (@rev byte)) in E. rewrite !rev_involutive in E.
  apply (N_to_le_inj 32); [| | exact E].
  - change (256 ^ N.of_nat 32)%N with (2 ^ 256)%N. exact Ha.
  - change (256 ^ N.of_nat 32)%N with (2 ^ 256)%N. exact Hb.
Qed.

(** ** Locks *)

Lemma Lock_pack (l : Lock.t) :
  fits_uint256 (Lock.amount l) -> fits_uint256 (Lock.expiration l) ->
  solidityPack
    [uint256 (Lock.amount l); uint256 (Lock.expiration l);
     bytes32 (Lock.hashLock l)] =
  Return (N_to_be 32 (Lock.amount l) ++ N_to_be 32 (Lock.expiration l)
          ++ setLengthRight (Lock.hashLock l) 32).
Proof.
  intros Ha He. cbn [solidityPack].
  rewrite (pack_uint256_fits Ha), (pack_uint256_fits He).
  cbn [bind pack_one]. now rewrite app_nil_r.
Qed.

(** X12.  [Lock.encode] gives the 96 bytes amount, expiration, hashLock when
    both integers fit 256 bits; otherwise it throws 'Supplied uint exceeds
    width: 256 vs ' followed by the bit length of the first integer that
    does not fit.  [getMessageHash] is the hash of exactly these bytes and
    throws in the same cases. *)
Theorem Lock_encode_96_bytes `{Primitives} (l : Lock.t) :
  (fits_uint256 (Lock.amount l) /\ fits_uint256 (Lock.expiration l) ->
   exists b : Buffer,
     Lock.encode l = Return b
     /\ List.length b = 96
     /\ b = N_to_be 32 (Lock.amount l) ++ N_to_be 32 (Lock.expiration l)
            ++ setLengthRight (Lock.hashLock l) 32
     /\ Lock.getMessageHash l = Return (sha3 b))
  /\ (~ fits_uint256 (Lock.amount l) ->
      Lock.encode l =
      Throw (JsError ("Supplied uint exceeds width: 256 vs "
                      ++ Number_toString (N.size (Lock.amount l))))
      /\ Lock.getMessageHash l =
         Throw (JsError ("Supplied uint exceeds width: 256 vs "
                         ++ Number_toString (N.size (Lock.amount l)))))
  /\ (fits_uint256 (Lock.amount l) -> ~ fits_uint256 (Lock.expiration l) ->
      Lock.encode l =
      Throw (JsError ("Supplied uint exceeds width: 256 vs "
                      ++ Number_toString (N.size (Lock.expiration l))))
      /\ Lock.getMessageHash l =
         Throw (JsError ("Supplied uint exceeds width: 256 vs "
                         ++ Number_toString (N.size (Lock.expiration l))))).
Proof.
  split; [| split].
  - intros [Ha He]. eexists. unfold Lock.encode, Lock.getMessageHash,
      soliditySHA3. rewrite (Lock_pack l Ha He). cbn [bind].
    split; [reflexivity |]. split; [| split; reflexivity].
    rewrite !length_app, !N_to_be_length, setLengthRight_length.
    reflexivity.
  - intros Hn. unfold Lock.encode, Lock.getMessageHash, soliditySHA3.
    cbn [solidityPack]. rewrite (pack_uint256_overflow Hn).
    split; reflexivity.
  - intros Ha Hn. unfold Lock.encode, Lock.getMessageHash, soliditySHA3.
    cbn [solidityPack].
    rewrite (pack_uint256_fits Ha), (pack_uint256_overflow Hn).
    split; reflexivity.
Qed.

(** X13.  The encoding determines the lock: two locks with 32-byte hashLocks
    and the same encoding have the same amount, expiration and hashLock. *)
Theorem Lock_encode_injective (l1 l2 : Lock.t) (b : Buffer) :
  List.length (Lock.hashLock l1) = 32 ->
  List.length (Lock.hashLock l2) = 32 ->
  Lock.encode l1 = Return b ->
  Lock.encode l2 = Return b ->
  l1 = l2.
Proof.
  intros H1 H2 E1 E2.
  assert (Hfits : forall l b0, Lock.encode l = Return b0 ->
                    fits_uint256 (Lock.amount l)
                    /\ fits_uint256 (Lock.expiration l)).
  { intros l b0 E. unfold Lock.encode in E. cbn [solidityPack pack_one] in E.
    destruct (N.size (Lock.amount l) <=? 256)%N eqn:Ea; [| discriminate].
    destruct (N.size (Lock.expiration l) <=? 256)%N eqn:Ee;
      [| discriminate].
    split; now apply size_le_256. }
  destruct (Hfits _ _ E1) as [Ha1 He1]. destruct (Hfits _ _ E2) as [Ha2 He2].
  unfold Lock.encode in E1, E2.
  rewrite (Lock_pack l1 Ha1 He1) in E1. rewrite (Lock_pack l2 Ha2 He2) in E2.
  rewrite <- E2 in E1. apply Return_inj in E1. rename E1 into E.
  rewrite !setLengthRight_exact in E by assumption.
  apply app_inj_length in E; [| now rewrite !N_to_be_length].
  destruct E as [Ea E].
  apply app_inj_length in E; [| now rewrite !N_to_be_length].
  destruct E as [Ee Eh].
  apply N_to_be_32_inj in Ea, Ee; try assumption.
  destruct l1, l2. cbn in *. congruence.
Qed.

Lemma Lock_encode_injective_witness :
  List.length (Lock.hashLock example_lock) = 32
  /\ Lock.encode example_lock =
     Return (N_to_be 32 50 ++ N_to_be 32 1000
             ++ example_sha3 example_secret)
  /\ example_lock = example_lock.
Proof.
  split; [reflexivity |]. split; [reflexivity |].
  exact (@Lock_encode_injective example_lock example_lock
           (N_to_be 32 50 ++ N_to_be 32 1000 ++ example_sha3 example_secret)
           eq_refl eq_refl eq_refl eq_refl).
Defined.

(** X14.  [OpenLock.encode] is the encoding of the lock followed by the 32
    bytes of the secret: 128 bytes. *)
Theorem OpenLock_encode_128_bytes (l : Lock.t) (sec b : Buffer) :
  Lock.encode l = Return b ->
  OpenLock.encode {| OpenLock.super := l; OpenLock.secret := Some sec |} =
  Return (b ++ setLengthRight sec 32)
  /\ List.length (b ++ setLengthRight sec 32) = 128.
Proof.
  intros E. unfold OpenLock.encode. cbn [OpenLock.secret OpenLock.super].
  unfold Lock.encode in E.
  change (solidityPack _) with
    (solidityPack
       ([uint256 (Lock.amount l); uint256 (Lock.expiration l);
         bytes32 (Lock.hashLock l)] ++ [bytes32 sec])) at 1.
  rewrite solidityPack_app, E. cbn [bind solidityPack pack_one].
  rewrite app_nil_r. split; [reflexivity |].
  rewrite length_app, setLengthRight_length.
  apply solidityPack_length in E. rewrite E. reflexivity.
Qed.

Lemma OpenLock_encode_128_bytes_witness :
  Lock.encode example_lock =
    Return (N_to_be 32 50 ++ N_to_be 32 1000 ++ example_sha3 example_secret)
  /\ OpenLock.encode
       {| OpenLock.super := example_lock;
          OpenLock.secret := Some example_secret |} =
     Return ((N_to_be 32 50 ++ N_to_be 32 1000
              ++ example_sha3 example_secret)
             ++ setLengthRight example_secret 32).
Proof.
  split; [reflexivity |].
  exact (proj1 (@OpenLock_encode_128_bytes example_lock example_secret _
                  eq_refl)).
Defined.

(** ** Proofs of messages *)

Lemma toProof__hash `{Primitives} (getMessageHash_ : Completion Buffer)
  (this : ProofMessage.t) :
  (p <- ProofMessage.toProof_ getMessageHash_ this ;; Proof.getHash p) =
  ProofMessage.getHash_ getMessageHash_ this.
Proof.
  unfold ProofMessage.toProof_, ProofMessage.getHash_, Proof.getHash.
  destruct getMessageHash_; reflexivity.
Qed.

Lemma toProof__from `{Primitives} (getMessageHash_ : Completion Buffer)
  (this : ProofMessage.t) (p : Proof.t) :
  ProofMessage.toProof_ getMessageHash_ this = Return p ->
  SignedMessage.signature p = SignedMessage.signature this
  /\ Proof.getHash p = ProofMessage.getHash_ getMessageHash_ this.
Proof.
  intros E. pose proof (toProof__hash getMessageHash_ this) as Hh.
  rewrite E in Hh. cbn [bind] in Hh. split; [| exact Hh].
  unfold ProofMessage.toProof_ in E.
  destruct getMessageHash_; cbn [bind] in E; try discriminate.
  apply Return_inj in E. now subst p.
Qed.

(** X15.  [toProof] keeps what the signature is about: the Proof of a
    DirectTransfer, LockedTransfer, MediatedTransfer or SecretToProof hashes
    to the hash of the message (and fails where that hash fails), and the
    sender recovered from the Proof is the sender recovered from the
    message. *)
Theorem toProof_keeps_hash_and_sender `{Primitives} :
  (forall m : DirectTransfer.t,
     (p <- DirectTransfer.toProof m ;; Proof.getHash p) =
       DirectTransfer.getHash m
     /\ forall p, DirectTransfer.toProof m = Return p ->
                  SignedMessage.from p = SignedMessage.from m)
  /\ (forall m : LockedTransfer.t,
        (p <- LockedTransfer.toProof m ;; Proof.getHash p) =
          LockedTransfer.getHash m
        /\ forall p, LockedTransfer.toProof m = Return p ->
                     SignedMessage.from p = SignedMessage.from m)
  /\ (forall m : MediatedTransfer.t,
        (p <- MediatedTransfer.toProof m ;; Proof.getHash p) =
          MediatedTransfer.getHash m
        /\ forall p, MediatedTransfer.toProof m = Return p ->
                     SignedMessage.from p = SignedMessage.from m)
  /\ (forall m : SecretToProof.t,
        (p <- SecretToProof.toProof m ;; Proof.getHash p) =
          SecretToProof.getHash m
        /\ forall p, SecretToProof.toProof m = Return p ->
                     SignedMessage.from p = SignedMessage.from m).
Proof.
  repeat apply conj; intros m; (split; [apply toProof__hash |]);
    intros p E; apply toProof__from in E; destruct E as [Hsig Hhash];
    unfold SignedMessage.from, SignedMessage._recoverAddress;
    cbn [signature_of getHash DirectTransfer.signed LockedTransfer.signed
         MediatedTransfer.signed SecretToProof.signed Proof.signed];
    rewrite Hsig, Hhash; reflexivity.
Qed.

(** X16.  A LockedTransfer and a SecretToProof are hashed over the same
    types in the same order, and nothing in the pre-image tells them apart:
    the SecretToProof with the fields of a locked transfer and the hash of
    its lock as secret has the hash of the locked transfer, so a signature
    of the one recovers to the same sender on the other. *)
Theorem SecretToProof_hash_of_LockedTransfer `{Primitives}
  (lt : LockedTransfer.t) (lh : Buffer) :
  LockedTransfer.lock_getMessageHash lt = Return lh ->
  SecretToProof.getMessageHash (SecretToProof_of lt lh) =
    LockedTransfer.getMessageHash lt
  /\ SecretToProof.getHash (SecretToProof_of lt lh) =
     LockedTransfer.getHash lt
  /\ SignedMessage.from (SecretToProof_of lt lh) = SignedMessage.from lt.
Proof.
  intros Hl.
  assert (Hm : SecretToProof.getMessageHash (SecretToProof_of lt lh) =
               LockedTransfer.getMessageHash lt).
  { unfold SecretToProof.getMessageHash, LockedTransfer.getMessageHash.
    rewrite Hl. reflexivity. }
  assert (Hh : SecretToProof.getHash (SecretToProof_of lt lh) =
               LockedTransfer.getHash lt).
  { unfold SecretToProof.getHash, LockedTransfer.getHash. rewrite Hm.
    reflexivity. }
  split; [exact Hm | split; [exact Hh |]].
  unfold SignedMessage.from, SignedMessage._recoverAddress.
  cbn [signature_of getHash LockedTransfer.signed SecretToProof.signed].
  rewrite Hh. reflexivity.
Qed.

Lemma SecretToProof_hash_of_LockedTransfer_witness :
  exists lh : Buffer,
    LockedTransfer.lock_getMessageHash (H := example_primitives)
      example_transfer = Return lh
    /\ SecretToProof.getHash (H := example_primitives)
         (SecretToProof_of example_transfer lh) =
       LockedTransfer.getHash (H := example_primitives) example_transfer.
Proof.
  eexists. split; [reflexivity |].
  exact (proj1 (proj2 (SecretToProof_hash_of_LockedTransfer
                         (H := example_primitives) example_transfer
                         eq_refl))).
Defined.

(** ** Signing *)

Lemma sign_and_store_spec `{Primitives} {M : Type} `{Signed M}
  (with_signature : M -> option Signature -> M) :
  (forall m sg, signature_of (with_signature m sg) = sg) ->
  (forall m sg, getHash (with_signature m sg) = getHash m) ->
  (forall m sg sg', with_signature (with_signature m sg) sg' =
                    with_signature m sg') ->
  forall (m : M) (privateKey : Buffer) (m' : M),
    sign_and_store with_signature m privateKey = Return m' ->
    getHash m' = getHash m
    /\ SignedMessage.isSigned m' = true
    /\ (exists (hash : Buffer) (sig : Signature),
          getHash m = Return hash
          /\ ecsign hash privateKey = Return sig
          /\ signature_of m' = Some sig
          /\ SignedMessage.from m' =
             (pk <- ecrecover hash (v sig) (r sig) (s sig) ;;
              pubToAddress pk))
    /\ (forall old : option Signature,
          sign_and_store with_signature (with_signature m old) privateKey =
          Return m').
Proof.
  intros Hsig Hhash Hover m key m' E.
  unfold sign_and_store, SignedMessage.sign in E.
  destruct (getHash m) as [hash | e |] eqn:Hm; cbn [bind] in E;
    try discriminate.
  destruct (ecsign hash key) as [sig | e |] eqn:Hs; cbn [bind] in E;
    try discriminate.
  apply Return_inj in E. subst m'.
  split; [now rewrite Hhash |].
  split; [unfold SignedMessage.isSigned; now rewrite Hsig |].
  split.
  - exists hash, sig. repeat split; try assumption; [apply Hsig |].
    unfold SignedMessage.from, SignedMessage._recoverAddress.
    rewrite Hsig, Hhash, Hm. reflexivity.
  - intros old. unfold sign_and_store, SignedMessage.sign.
    rewrite Hhash, Hm. cbn [bind]. rewrite Hs. cbn [bind].
    now rewrite Hover.
Qed.

(** X17.  [sign] hashes the message without its signature, so that signing
    stores a signature over the very hash [from] later recovers from: after
    [sign(key)] the hash is unchanged, the message is signed, [from] is
    [pubToAddress(ecrecover(hash, signature))], and whatever signature the
    message held before makes no difference. This holds for RequestSecret,
    RevealSecret, MediatedTransfer and SecretToProof. *)
Theorem sign_stores_a_signature_of_the_hash `{Primitives}
  (privateKey : Buffer) :
  (forall m m' : RequestSecret.t,
     sign_and_store RequestSecret_with_signature m privateKey = Return m' ->
     getHash m' = getHash m
     /\ SignedMessage.isSigned m' = true
     /\ (exists (hash : Buffer) (sig : Signature),
           getHash m = Return hash
           /\ ecsign hash privateKey = Return sig
           /\ signature_of m' = Some sig
           /\ SignedMessage.from m' =
              (pk <- ecrecover hash (v sig) (r sig) (s sig) ;;
               pubToAddress pk))
     /\ (forall old : option Signature,
           sign_and_store RequestSecret_with_signature
             (RequestSecret_with_signature m old) privateKey = Return m'))
  /\ (forall m m' : RevealSecret.t,
        sign_and_store RevealSecret_with_signature m privateKey =
          Return m' ->
        getHash m' = getHash m
        /\ SignedMessage.isSigned m' = true
        /\ (exists (hash : Buffer) (sig : Signature),
              getHash m = Return hash
              /\ ecsign hash privateKey = Return sig
              /\ signature_of m' = Some sig
              /\ SignedMessage.from m' =
                 (pk <- ecrecover hash (v sig) (r sig) (s sig) ;;
                  pubToAddress pk))
        /\ (forall old : option Signature,
              sign_and_store RevealSecret_with_signature
                (RevealSecret_with_signature m old) privateKey = Return m'))
  /\ (forall m m' : MediatedTransfer.t,
        sign_and_store MediatedTransfer_with_signature m privateKey =
          Return m' ->
        getHash m' = getHash m
        /\ SignedMessage.isSigned m' = true
        /\ (exists (hash : Buffer) (sig : Signature),
              getHash m = Return hash
              /\ ecsign hash privateKey = Return sig
              /\ signature_of m' = Some sig
              /\ SignedMessage.from m' =
                 (pk <- ecrecover hash (v sig) (r sig) (s sig) ;;
                  pubToAddress pk))
        /\ (forall old : option Signature,
              sign_and_store MediatedTransfer_with_signature
                (MediatedTransfer_with_signature m old) privateKey =
              Return m'))
  /\ (forall m m' : SecretToProof.t,
        sign_and_store SecretToProof_with_signature m privateKey =
          Return m' ->
        getHash m' = getHash m
        /\ SignedMessage.isSigned m' = true
        /\ (exists (hash : Buffer) (sig : Signature),
              getHash m = Return hash
              /\ ecsign hash privateKey = Return sig
              /\ signature_of m' = Some sig
              /\ SignedMessage.from m' =
                 (pk <- ecrecover hash (v sig) (r sig) (s sig) ;;
                  pubToAddress pk))
        /\ (forall old : option Signature,
              sign_and_store SecretToProof_with_signature
                (SecretToProof_with_signature m old) privateKey =
              Return m')).
Proof.
  repeat apply conj; intros m m';
    apply sign_and_store_spec; intros; reflexivity.
Qed.

(** ** Transfers built without a lock *)

Lemma construct_without_lock (options l options' : Value)
  (this : LockedTransfer.t) :
  get options "lock" = Return l ->
  truthy l = false ->
  LockedTransfer.construct options = Return (this, options') ->
  LockedTransfer.lock this = None
  /\ exists props, options' = VObject props
                   /\ forall k, String.eqb k "lock" = false ->
                                get options' k = get options k.
Proof.
  intros Hget Hfalsy Hnew. unfold LockedTransfer.construct in Hnew.
  destruct (DirectTransfer.new options) as [base | e |];
    cbn [bind] in Hnew; try discriminate.
  rewrite Hget in Hnew. cbn [bind] in Hnew. rewrite Hfalsy in Hnew.
  cbn [negb] in Hnew.
  change (Lock.new (VObject [])) with
    (Return {| Lock.amount := 0%N; Lock.expiration := 0%N;
               Lock.hashLock := EMPTY_32BYTE_BUFFER |}) in Hnew.
  cbn [bind] in Hnew.
  destruct options; cbn [set bind] in Hnew; try discriminate.
  apply Return_inj in Hnew. injection Hnew as <- <-.
  split; [reflexivity |]. eexists. split; [reflexivity |].
  intros k Hk. cbn [get]. now rewrite lookup_assign_other.
Qed.

(** X18.  A MediatedTransfer built from options without a lock has no lock
    either: it cannot be hashed, signed or turned into a Proof (each throws
    a TypeError), and a Target started on it never leaves [init] and never
    emits, whatever it is fed. *)
Theorem MediatedTransfer_without_lock `{Primitives} (options l : Value)
  (mt : MediatedTransfer.t) :
  get options "lock" = Return l ->
  truthy l = false ->
  MediatedTransfer.new options = Return mt ->
  LockedTransfer.lock mt = None
  /\ MediatedTransfer.getMessageHash mt =
     Throw (TypeError "Cannot read properties of undefined")
  /\ MediatedTransfer.getHash mt =
     Throw (TypeError "Cannot read properties of undefined")
  /\ MediatedTransfer.toProof mt =
     Throw (TypeError "Cannot read properties of undefined")
  /\ (forall privateKey : Buffer,
        sign_and_store MediatedTransfer_with_signature mt privateKey =
        Throw (TypeError "Cannot read properties of undefined"))
  /\ (forall (sec rev : option Buffer) (inputs : list Input),
        MessageState.applyMessages
          (Target_MessageState
             {| transfer := mt; secret := sec; revealTo := rev |}) inputs =
        Target_MessageState
          {| transfer := mt; secret := sec; revealTo := rev |}).
Proof.
  intros Hget Hfalsy Hnew.
  assert (Hlock : LockedTransfer.lock mt = None).
  { unfold MediatedTransfer.new in Hnew.
    destruct (LockedTransfer.construct options) as [[this options'] | e |]
      eqn:Hc; cbn [bind] in Hnew; try discriminate.
    destruct (construct_without_lock _ Hget Hfalsy Hc) as [Hl _].
    cbn [fst snd] in Hnew.
    destruct (get_Buffer options' "target" EMPTY_20BYTE_BUFFER);
      cbn [bind] in Hnew; try discriminate.
    destruct (get_Buffer options' "initiator" EMPTY_20BYTE_BUFFER);
      cbn [bind] in Hnew; try discriminate.
    apply Return_inj in Hnew. subst mt. exact Hl. }
  assert (Hm : MediatedTransfer.getMessageHash mt =
               Throw (TypeError "Cannot read properties of undefined")).
  { unfold MediatedTransfer.getMessageHash,
      LockedTransfer.lock_getMessageHash. now rewrite Hlock. }
  assert (Hh : MediatedTransfer.getHash mt =
               Throw (TypeError "Cannot read properties of undefined")).
  { unfold MediatedTransfer.getHash, ProofMessage.getHash_.
    now rewrite Hm. }
  split; [exact Hlock |]. split; [exact Hm |]. split; [exact Hh |].
  split; [| split].
  - unfold MediatedTransfer.toProof, ProofMessage.toProof_. now rewrite Hm.
  - intros key. unfold sign_and_store, SignedMessage.sign.
    cbn [getHash MediatedTransfer.signed]. now rewrite Hh.
  - intros sec rev inputs. apply settled_run. intros input.
    unfold Target.handle, machina.start. cbn [machina.state].
    unfold Target.init_any, lock_of. run_handler.
    cbn [transfer]. now rewrite Hlock.
Qed.

Lemma MediatedTransfer_without_lock_witness :
  exists mt : MediatedTransfer.t,
    MediatedTransfer.new (VObject []) = Return mt
    /\ LockedTransfer.lock mt = None
    /\ MediatedTransfer.getHash (H := example_primitives) mt =
       Throw (TypeError "Cannot read properties of undefined").
Proof.
  eexists. split; [reflexivity |].
  destruct (MediatedTransfer_without_lock (H := example_primitives)
              (VObject []) (l := VUndefined) eq_refl eq_refl eq_refl)
    as (Hlock & _ & Hhash & _).
  split; [exact Hlock | exact Hhash].
Defined.

(** ** Decoding: what is accepted and what is refused *)

Lemma lift_Return {A B : Type} (f : A -> B) (c : Completion A) (b : B) :
  lift f c = Return b -> exists a, c = Return a /\ b = f a.
Proof.
  unfold lift. destruct c as [a | e |]; cbn [bind]; try discriminate.
  intros E. apply Return_inj in E. now exists a.
Qed.

(** The decoder's switch, read backwards: a returned message was built by
    the constructor of its own class from the parsed object, whose
    [classType] names that class. *)
Lemma decode_cases (data : json) (msg : Message) :
  DESERIALIZE_AND_DECODE_MESSAGE data = Return msg ->
  exists props : list (string * Value),
    DESERIALIZE data = Return (VObject props)
    /\ lookup "classType" props = Some (VString (constructor_name msg))
    /\ match msg with
       | MSignedMessage m => SignedMessage.new (VObject props) = Return m
       | MProof m => Proof.new (VObject props) = Return m
       | MProofMessage m => ProofMessage.new (VObject props) = Return m
       | MLock m => Lock.new (VObject props) = Return m
       | MOpenLock m => OpenLock.new (VObject props) VUndefined = Return m
       | MDirectTransfer m => DirectTransfer.new (VObject props) = Return m
       | MLockedTransfer m => LockedTransfer.new (VObject props) = Return m
       | MMediatedTransfer m =>
           MediatedTransfer.new (VObject props) = Return m
       | MRequestSecret m => RequestSecret.new (VObject props) = Return m
       | MRevealSecret m => RevealSecret.new (VObject props) = Return m
       | MSecretToProof m => SecretToProof.new (VObject props) = Return m
       | MAck m => Ack.new (VObject props) = Return m
       end.
Proof.
  unfold DESERIALIZE_AND_DECODE_MESSAGE.
  destruct (DESERIALIZE data) as [obj | e |]; cbn [bind]; try discriminate.
  destruct obj as [| | b | n | str | n | b | items | props | a e h];
    cbn [hasOwnProperty get bind]; try discriminate.
  destruct (lookup "hasOwnProperty" props); cbn [bind]; [discriminate |].
  destruct (lookup "classType" props) as [c |] eqn:Hc; cbn [bind];
    [| discriminate].
  intros E. exists props. split; [reflexivity |].
  destruct c as [| | b | n | c | n | b | items | ps | a e h];
    try discriminate.
  repeat match type of E with
         | (if String.eqb c ?name then _ else _) = _ =>
             destruct (String.eqb_spec c name) as [-> | _];
             [apply lift_Return in E; destruct E as (m & E & ->);
              split; [exact Hc | exact E] |]
         end.
  discriminate.
Qed.

(** X19.  Whatever the decoder returns, it built from an object whose
    [classType] is one of the twelve names it knows, and the object it built
    is of that class. *)
Theorem decode_returns_the_class_named (data : json) (msg : Message) :
  DESERIALIZE_AND_DECODE_MESSAGE data = Return msg ->
  exists props : list (string * Value),
    DESERIALIZE data = Return (VObject props)
    /\ lookup "classType" props = Some (VString (constructor_name msg))
    /\ In (constructor_name msg) known_classTypes.
Proof.
  intros E. destruct (decode_cases _ E) as (props & Hparse & Hc & _).
  exists props. split; [exact Hparse |]. split; [exact Hc |].
  destruct msg; cbn; tauto.
Qed.

Lemma decode_returns_the_class_named_witness :
  exists props : list (string * Value),
    DESERIALIZE (JObject [("classType", JString "RevealSecret")]) =
    Return (VObject props)
    /\ lookup "classType" props = Some (VString "RevealSecret")
    /\ In "RevealSecret" known_classTypes.
Proof.
  exact (@decode_returns_the_class_named
           (JObject [("classType", JString "RevealSecret")])
           (MRevealSecret
              {| RevealSecret.super := {| SignedMessage.signature := None |};
                 RevealSecret.secret := EMPTY_32BYTE_BUFFER;
                 RevealSecret.to := EMPTY_20BYTE_BUFFER |})
           eq_refl).
Defined.

(** A parsed document is never undefined and never an instance of Lock. *)
Lemma parsed_value (data : json) (obj : Value) :
  DESERIALIZE data = Return obj ->
  match obj with
  | VUndefined | VLock _ _ _ => False
  | _ => True
  end.
Proof.
  unfold DESERIALIZE, JSON_parse.
  destruct data as [| b | n | str | items | members];
    cbn [JSON_parse_text]; intros E.
  - apply Return_inj in E. subst obj. exact I.
  - apply Return_inj in E. subst obj. exact I.
  - destruct (exact_double n); [| discriminate].
    apply Return_inj in E. subst obj. exact I.
  - apply Return_inj in E. subst obj. exact I.
  - destruct (traverse JSON_parse_text items) as [vs | |];
      cbn [bind internalize] in E; try discriminate.
    destruct (traverse _ vs) as [ws | |]; cbn [bind] in E;
      try discriminate.
    apply Return_inj in E. subst obj. exact I.
  - destruct (traverse _ members) as [ps | |]; cbn [bind internalize] in E;
      try discriminate.
    destruct (traverse _ (own_members ps)) as [qs | |]; cbn [bind] in E;
      try discriminate.
    unfold JSON_REVIVER_FUNC in E.
    destruct (lookup "type" qs) as [[| | | | ty | | | | |] |];
      try (apply Return_inj in E; subst obj; exact I).
    destruct (lookup "data" qs) as [[| | | | | | | dt | |] |];
      try (apply Return_inj in E; subst obj; exact I).
    destruct (String.eqb ty "Buffer");
      [| apply Return_inj in E; subst obj; exact I].
    destruct (toBuffer_array dt); cbn [bind] in E; try discriminate.
    apply Return_inj in E. subst obj. exact I.
Qed.

(** X20.  What the decoder refuses, by what the document parses to.  Null
    makes the property test throw a TypeError, and so does an object with a
    property named [hasOwnProperty], which is called in place of the
    method.  Otherwise a value that is no object, or an object without
    [classType], is "not a recoginized GOT message type", and a [classType]
    that is not one of the twelve names, or not a string at all, is an
    "unknown classType".  Of a key written twice the document's last value
    counts. *)
Theorem decode_refusals (data : json) (obj : Value) :
  DESERIALIZE data = Return obj ->
  (obj = VNull ->
   DESERIALIZE_AND_DECODE_MESSAGE data =
   Throw (TypeError "Cannot read properties of null"))
  /\ (forall (props : list (string * Value)) (x : Value),
        obj = VObject props ->
        lookup "hasOwnProperty" props = Some x ->
        DESERIALIZE_AND_DECODE_MESSAGE data =
        Throw (TypeError "jsonObj.hasOwnProperty is not a function"))
  /\ ((forall props, obj = VObject props ->
                     lookup "hasOwnProperty" props = None
                     /\ lookup "classType" props = None) ->
      obj <> VNull ->
      DESERIALIZE_AND_DECODE_MESSAGE data =
      Throw (JsError "Invalid Message: not a recoginized GOT message type"))
  /\ (forall (props : list (string * Value)) (c : Value),
        obj = VObject props ->
        lookup "hasOwnProperty" props = None ->
        lookup "classType" props = Some c ->
        (forall name, c = VString name -> ~ In name known_classTypes) ->
        DESERIALIZE_AND_DECODE_MESSAGE data =
        Throw (JsError "Invalid Message: unknown classType")).
Proof.
  intros Hparse. unfold DESERIALIZE_AND_DECODE_MESSAGE. rewrite Hparse.
  cbn [bind]. split; [| split; [| split]].
  - intros ->. reflexivity.
  - intros props x -> Hx. cbn [hasOwnProperty]. now rewrite Hx.
  - intros Hno Hnull.
    destruct obj as [| | b | n | str | n | b | items | props | a e h];
      try reflexivity.
    + destruct (parsed_value _ Hparse).
    + exfalso. apply Hnull. reflexivity.
    + cbn [hasOwnProperty]. destruct (Hno props eq_refl) as [Hh Hc].
      now rewrite Hh, Hc.
  - intros props c -> Hh Hc Hunknown. cbn [hasOwnProperty get].
    rewrite Hh, Hc. cbn [bind].
    destruct c as [| | b | n | c | n | b | items | ps | a e h];
      try reflexivity.
    specialize (Hunknown c eq_refl).
    repeat match goal with
           | |- (if String.eqb c ?name then _ else _) = _ =>
               destruct (String.eqb_spec c name) as [-> | _];
               [exfalso; apply Hunknown; cbn; tauto |]
           end.
    reflexivity.
Qed.

Lemma decode_refusals_witness :
  DESERIALIZE_AND_DECODE_MESSAGE
    (JObject [("classType", JString "Ack");
              ("classType", JString "Transfer")]) =
  Throw (JsError "Invalid Message: unknown classType")
  /\ DESERIALIZE_AND_DECODE_MESSAGE
       (JObject [("classType", JString "Ack");
                 ("hasOwnProperty", JNumber 1)]) =
     Throw (TypeError "jsonObj.hasOwnProperty is not a function").
Proof.
  split.
  - refine (proj2 (proj2 (proj2
              (@decode_refusals
                 (JObject [("classType", JString "Ack");
                           ("classType", JString "Transfer")])
                 _ eq_refl)))
              [("classType", VString "Transfer")] (VString "Transfer")
              eq_refl eq_refl eq_refl _).
    intros name E. apply (f_equal (fun v => match v with
                                            | VString str => str
                                            | _ => ""
                                            end)) in E.
    subst name. cbn. intuition discriminate.
  - exact (proj1 (proj2
             (@decode_refusals
                (JObject [("classType", JString "Ack");
                          ("hasOwnProperty", JNumber 1)])
                _ eq_refl))
             [("classType", VString "Ack"); ("hasOwnProperty", VNumber 1)]
             (VNumber 1) eq_refl eq_refl).
Defined.

(** X21.  The decoder calls [new OpenLock(jsonObj)] with one argument:
    whatever the document holds, a decoded OpenLock has no secret, and its
    three lock fields are those [new Lock] reads from the document. *)
Theorem decoded_OpenLock_has_no_secret (data : json) (m : OpenLock.t) :
  DESERIALIZE_AND_DECODE_MESSAGE data = Return (MOpenLock m) ->
  OpenLock.secret m = None
  /\ exists obj, DESERIALIZE data = Return obj
                 /\ Lock.new obj = Return (OpenLock.super m).
Proof.
  intros E. destruct (decode_cases _ E) as (props & Hparse & _ & Hnew).
  unfold OpenLock.new in Hnew.
  destruct (Lock.new (VObject props)) as [base | e |] eqn:Hbase;
    cbn [bind] in Hnew; try discriminate.
  apply Return_inj in Hnew. subst m. split; [reflexivity |].
  exists (VObject props). split; [exact Hparse | exact Hbase].
Qed.

Lemma decoded_OpenLock_has_no_secret_witness :
  OpenLock.secret
    {| OpenLock.super :=
         {| Lock.amount := 0%N; Lock.expiration := 0%N;
            Lock.hashLock := EMPTY_32BYTE_BUFFER |};
       OpenLock.secret := None |} = None
  /\ exists obj,
      DESERIALIZE
        (JObject [("classType", JString "OpenLock");
                  ("secret", Buffer_toJSON EMPTY_32BYTE_BUFFER)]) =
      Return obj
      /\ Lock.new obj =
         Return {| Lock.amount := 0%N; Lock.expiration := 0%N;
                   Lock.hashLock := EMPTY_32BYTE_BUFFER |}.
Proof.
  exact (@decoded_OpenLock_has_no_secret
           (JObject [("classType", JString "OpenLock");
                     ("secret", Buffer_toJSON EMPTY_32BYTE_BUFFER)])
           {| OpenLock.super :=
                {| Lock.amount := 0%N; Lock.expiration := 0%N;
                   Lock.hashLock := EMPTY_32BYTE_BUFFER |};
              OpenLock.secret := None |}
           eq_refl).
Defined.

(** X22.  Lock and OpenLock do not extend SignedMessage and carry no
    [classType]: the encoding of a Lock, and of an OpenLock with or without
    its secret, is refused by the decoder, whose 'Lock' and 'OpenLock' cases
    no encoding written by [SERIALIZE] reaches. *)
Theorem Lock_encodings_are_refused :
  (forall l : Lock.t,
      exists j, SERIALIZE (MLock l) = Some j
                /\ DESERIALIZE_AND_DECODE_MESSAGE j =
                   Throw (JsError
                            "Invalid Message: not a recoginized GOT message type"))
  /\ (forall l : OpenLock.t,
        exists j, SERIALIZE (MOpenLock l) = Some j
                  /\ DESERIALIZE_AND_DECODE_MESSAGE j =
                     Throw (JsError
                              "Invalid Message: not a recoginized GOT message type")).
Proof.
  split.
  - intros [a e h].
    destruct (VLock_comes_back a e h) as (j & Hj & Hw).
    exists j. split; [exact Hj |].
    unfold DESERIALIZE_AND_DECODE_MESSAGE, DESERIALIZE. rewrite Hw.
    reflexivity.
  - intros [[a e h] [sec |]].
    + decode_encoded. reflexivity.
    + destruct (VLock_comes_back a e h) as (j & Hj & Hw).
      exists j. split; [exact Hj |].
      unfold DESERIALIZE_AND_DECODE_MESSAGE, DESERIALIZE. rewrite Hw.
      reflexivity.
Qed.

(** ** Values on the wire *)

(** X23.  A Buffer comes back from its JSON text byte for byte; a BN comes
    back from its text through [TO_BN]; and any object [{type: 'Buffer',
    data}] whose data are integers of at most 2^53 in absolute value is
    revived as the Buffer of these integers modulo 256, whatever key it sits
    under. *)
Theorem Buffer_and_BN_survive_the_wire :
  (forall b : Buffer,
      exists j, JSON_stringify (VBuffer b) = Some j
                /\ DESERIALIZE j = Return (VBuffer b))
  /\ (forall n : BN,
        exists j, JSON_stringify (VBN n) = Some j
                  /\ (v <- DESERIALIZE j ;; TO_BN v) = Return n)
  /\ (forall (k : string) (ns : list Z),
        Forall (fun n => (Z.abs n <= 2 ^ 53)%Z) ns ->
        JSON_parse JSON_REVIVER_FUNC k
          (JObject [("type", JString "Buffer");
                    ("data", JArray (map JNumber ns))]) =
        Return (VBuffer (map (fun n => byte_of_N (Z.to_N (n mod 256))) ns))).
Proof.
  split; [| split].
  - intros b. eexists. split; [reflexivity |]. apply Buffer_round_trip.
  - intros n. eexists. split; [reflexivity |].
    unfold DESERIALIZE, JSON_parse.
    cbn [JSON_stringify JSON_parse_text internalize JSON_REVIVER_FUNC bind].
    apply BN_round_trip.
  - intros k ns Hns. apply Buffer_document.
    apply Forall_forall. intros n Hn. unfold exact_double.
    apply Z.leb_le. exact (proj1 (Forall_forall _ ns) Hns n Hn).
Qed.

Lemma Buffer_and_BN_survive_the_wire_witness :
  JSON_parse JSON_REVIVER_FUNC "secret"
    (JObject [("type", JString "Buffer");
              ("data", JArray (map JNumber [0; 255; 256; -1]%Z))]) =
  Return (VBuffer [x00; xff; x00; xff]).
Proof.
  refine (proj2 (proj2 Buffer_and_BN_survive_the_wire)
            "secret" [0; 255; 256; -1]%Z _).
  repeat constructor; vm_compute; discriminate.
Defined.

(** ** What a signature covers *)

(** X24.  Two RequestSecrets with 20-byte recipients and 32-byte hashLocks
    whose hashes are taken over the same bytes have the same msgID,
    recipient, hashLock and amount; likewise two RevealSecrets with 32-byte
    secrets have the same secret and recipient.  The bytes are those under
    the [sha3] of [getHash]. *)
Theorem secret_messages_preimage_binds `{Primitives} :
  (forall (m1 m2 : RequestSecret.t) (p : Buffer),
      solidityPack
        [uint256 (RequestSecret.msgID m1); address (RequestSecret.to m1);
         bytes32 (RequestSecret.hashLock m1);
         uint256 (RequestSecret.amount m1)] = Return p ->
      solidityPack
        [uint256 (RequestSecret.msgID m2); address (RequestSecret.to m2);
         bytes32 (RequestSecret.hashLock m2);
         uint256 (RequestSecret.amount m2)] = Return p ->
      List.length (RequestSecret.to m1) = 20 ->
      List.length (RequestSecret.to m2) = 20 ->
      List.length (RequestSecret.hashLock m1) = 32 ->
      List.length (RequestSecret.hashLock m2) = 32 ->
      RequestSecret.getHash m1 = Return (sha3 p)
      /\ RequestSecret.getHash m2 = Return (sha3 p)
      /\ RequestSecret.msgID m1 = RequestSecret.msgID m2
      /\ RequestSecret.to m1 = RequestSecret.to m2
      /\ RequestSecret.hashLock m1 = RequestSecret.hashLock m2
      /\ RequestSecret.amount m1 = RequestSecret.amount m2)
  /\ (forall (m1 m2 : RevealSecret.t) (p : Buffer),
        solidityPack
          [bytes32 (RevealSecret.secret m1); address (RevealSecret.to m1)] =
        Return p ->
        solidityPack
          [bytes32 (RevealSecret.secret m2); address (RevealSecret.to m2)] =
        Return p ->
        List.length (RevealSecret.secret m1) = 32 ->
        List.length (RevealSecret.secret m2) = 32 ->
        List.length (RevealSecret.to m1) = 20 ->
        List.length (RevealSecret.to m2) = 20 ->
        RevealSecret.getHash m1 = Return (sha3 p)
        /\ RevealSecret.getHash m2 = Return (sha3 p)
        /\ RevealSecret.secret m1 = RevealSecret.secret m2
        /\ RevealSecret.to m1 = RevealSecret.to m2).
Proof.
  split.
  - intros m1 m2 p H1 H2 Ht1 Ht2 Hh1 Hh2.
    split; [| split].
    + unfold RequestSecret.getHash, soliditySHA3. now rewrite H1.
    + unfold RequestSecret.getHash, soliditySHA3. now rewrite H2.
    + cbn [solidityPack] in H1, H2.
      destruct (pack_one (uint256 (RequestSecret.msgID m1)))
        as [i1 | e |] eqn:Ei1; cbn [bind] in H1; try discriminate.
      destruct (pack_one (uint256 (RequestSecret.msgID m2)))
        as [i2 | e |] eqn:Ei2; cbn [bind] in H2; try discriminate.
      destruct (pack_one (uint256 (RequestSecret.amount m1)))
        as [a1 | e |] eqn:Ea1; cbn [pack_one bind] in H1; try discriminate.
      destruct (pack_one (uint256 (RequestSecret.amount m2)))
        as [a2 | e |] eqn:Ea2; cbn [pack_one bind] in H2; try discriminate.
      assert (Fi1 : fits_uint256 (RequestSecret.msgID m1)).
      { apply size_le_256. cbn [pack_one] in Ei1.
        destruct (N.size _ <=? 256)%N; [reflexivity | discriminate]. }
      assert (Fi2 : fits_uint256 (RequestSecret.msgID m2)).
      { apply size_le_256. cbn [pack_one] in Ei2.
        destruct (N.size _ <=? 256)%N; [reflexivity | discriminate]. }
      assert (Fa1 : fits_uint256 (RequestSecret.amount m1)).
      { apply size_le_256. cbn [pack_one] in Ea1.
        destruct (N.size _ <=? 256)%N; [reflexivity | discriminate]. }
      assert (Fa2 : fits_uint256 (RequestSecret.amount m2)).
      { apply size_le_256. cbn [pack_one] in Ea2.
        destruct (N.size _ <=? 256)%N; [reflexivity | discriminate]. }
      rewrite pack_uint256_fits in Ei1, Ei2, Ea1, Ea2 by assumption.
      apply Return_inj in Ei1, Ei2, Ea1, Ea2, H1, H2.
      subst i1 i2 a1 a2. rewrite <- H2 in H1. clear H2.
      rewrite !setLengthLeft_exact, !setLengthRight_exact in H1
        by assumption.
      rewrite !app_nil_r in H1.
      apply app_inj_length in H1; [| now rewrite !N_to_be_length].
      destruct H1 as [Ei E].
      apply app_inj_length in E; [| congruence]. destruct E as [Et E].
      apply app_inj_length in E; [| congruence]. destruct E as [Eh Ea].
      apply N_to_be_32_inj in Ei, Ea; try assumption.
      repeat split; assumption.
  - intros m1 m2 p H1 H2 Hs1 Hs2 Ht1 Ht2.
    split; [| split].
    + unfold RevealSecret.getHash, soliditySHA3. now rewrite H1.
    + unfold RevealSecret.getHash, soliditySHA3. now rewrite H2.
    + rewrite <- H2 in H1. clear H2.
      cbn [solidityPack pack_one bind] in H1. apply Return_inj in H1.
      rewrite !setLengthLeft_exact, !setLengthRight_exact in H1
        by assumption.
      rewrite !app_nil_r in H1.
      apply app_inj_length in H1; [| congruence]. exact H1.
Qed.

Lemma secret_messages_preimage_binds_witness :
  RevealSecret.secret example_revealSecret =
  RevealSecret.secret (RevealSecret_with_signature example_revealSecret None)
  /\ RequestSecret.amount example_requestSecret =
     RequestSecret.amount
       (RequestSecret_with_signature example_requestSecret None).
Proof.
  split.
  - exact (proj1 (proj2 (proj2
             (proj2 (secret_messages_preimage_binds
                       (H := example_primitives))
                example_revealSecret
                (RevealSecret_with_signature example_revealSecret None)
                _ eq_refl eq_refl eq_refl eq_refl eq_refl eq_refl)))).
  - exact (proj2 (proj2 (proj2 (proj2 (proj2
             (proj1 (secret_messages_preimage_binds
                       (H := example_primitives))
                example_requestSecret
                (RequestSecret_with_signature example_requestSecret None)
                _ eq_refl eq_refl eq_refl eq_refl eq_refl eq_refl)))))).
Defined.

(** ** The base classes *)

(** X25.  An instance of SignedMessage or ProofMessage itself, as the
    decoder builds for these two class names, has no hash: signing it
    throws, its Proof cannot be taken, and reading its sender throws whether
    or not it carries a signature. *)
Theorem base_classes_cannot_be_signed `{Primitives} :
  (forall (m : SignedMessage.t) (privateKey : Buffer),
      SignedMessage.sign m privateKey =
      Throw (JsError "unimplemented getHash()")
      /\ SignedMessage.from m =
         Throw (JsError (if SignedMessage.isSigned m
                         then "unimplemented getHash()"
                         else "no signature to recover address from")))
  /\ (forall (m : ProofMessage.t) (privateKey : Buffer),
        SignedMessage.sign m privateKey =
        Throw (JsError "unimplemented getMessageHash")
        /\ ProofMessage.toProof_ (ProofMessage.getMessageHash m) m =
           Throw (JsError "unimplemented getMessageHash")
        /\ SignedMessage.from m =
           Throw (JsError (if SignedMessage.isSigned m
                           then "unimplemented getMessageHash"
                           else "no signature to recover address from"))).
Proof.
  split.
  - intros [[sig |]] key; split; reflexivity.
  - intros [[[sig |]] n ta lr ca mh] key; repeat split.
Qed.

(** ** Signing, on the example *)

Lemma sign_stores_a_signature_of_the_hash_witness :
  exists m' : RequestSecret.t,
    sign_and_store (H := example_primitives)
      (H0 := @RequestSecret.signed example_primitives)
      RequestSecret_with_signature example_unsigned (repeat xcc 20) =
    Return m'
    /\ SignedMessage.isSigned
         (H0 := @RequestSecret.signed example_primitives) m' = true.
Proof.
  eexists. split; [reflexivity |].
  exact (proj1 (proj2 (proj1 (sign_stores_a_signature_of_the_hash
                                (H := example_primitives) (repeat xcc 20))
                         example_unsigned _ eq_refl))).
Defined.

Lemma toProof_keeps_hash_and_sender_witness :
  exists p : Proof.t,
    MediatedTransfer.toProof (H := example_primitives) example_transfer =
    Return p
    /\ SignedMessage.from (H := example_primitives)
         (H0 := @Proof.signed example_primitives) p =
       SignedMessage.from (H := example_primitives)
         (H0 := @MediatedTransfer.signed example_primitives)
         example_transfer.
Proof.
  eexists. split; [reflexivity |].
  exact (proj2 (proj1 (proj2 (proj2 (toProof_keeps_hash_and_sender
                                       (H := example_primitives))))
                  example_transfer) _ eq_refl).
Defined.
